(** * console-vmm: a demand-paging virtual memory manager

    A shallow embedding of [main.c].  The program reads a text file of
    logical addresses, translates each of them through a one-level page
    table, loads missing pages from a backing store into a flat physical
    memory, and prints one line per translation followed by the fault
    statistics.

    Conventions of the embedding:
    - a C [int] is a [Z]: the [int] counters of the program count faults and
      addresses and stay below the number of addresses; the only counter
      that can wrap is the [unsigned char] frame counter, whose wrap-around
      is written out;
    - a [signed char] is a [Z] in [-128, 128);
    - a heap block that the program initialises completely
      ([page_table->map]) is a [list]; a heap block that [malloc] leaves
      uninitialised is a [gmap] from index to content, where an absent
      index is a cell that was never written;
    - an access outside of a block is undefined behaviour in C: every
      array access of [map_addresses] is bounds-checked here, and a failed
      check makes the enclosing function return [None];
    - of [create_virtual_memory] the embedding has the loop over the
      characters and the entries it stores.  The accesses that this function
      makes beside its line buffer (the end of the digits that [atoi] looks
      for at line 251, the last byte written by the reset loop of lines
      264-265) and the first [realloc] of its list of addresses (line 257)
      are not represented: what is proved of this function is about a text
      without a newline, compares two readings of a text or is the arithmetic
      of one entry, and says nothing of what [atoi] finds in the buffer. *)

From Stdlib Require Import ZArith List Lia Strings.Byte.
From Stdlib Require Import Floats.SpecFloat.
From stdpp Require Import base option list gmap.

Local Open Scope Z_scope.

#[local] Set Warnings "-clear-no-such-hyp".

(** ** Constants ([main.c], lines 12-19) *)

Definition UNMAPPED : Z := -1.
Definition FRAME_SIZE : Z := 256.
Definition FRAME_NUMBER_OFFSET_BITS : Z := 8.
Definition PAGE_NUMBER_OFFSET_BITS : Z := 8.
Definition PAGE_OFFSET_MASK : Z := 255.
Definition PAGE_TABLE_SIZE : Z := 256.
Definition PAGE_SIZE : Z := 256.
Definition PHYSICAL_MEMORY_SIZE : Z := PAGE_TABLE_SIZE * PAGE_SIZE.

(** The frame counter is an [unsigned char]. *)
Definition UCHAR_MODULUS : Z := 256.

(** ** Data ([main.c], lines 25-76) *)

Record VirtualAddress := {
  va_address : Z;
  page_number : Z;
  page_offset : Z
}.

(** [value] is [None] when the byte that was read is indeterminate. *)
Record PhysicalAddress := {
  pa_address : Z;
  frame_number : Z;
  frame_offset : Z;
  value : option Z
}.

(** [addresses] with its [address_count]. *)
Record VirtualMemory := { addresses : list VirtualAddress }.

Definition address_count (vm : VirtualMemory) : Z :=
  Z.of_nat (length (addresses vm)).

Record PhysicalMemory := {
  pm_address_count : Z;
  space : gmap Z Z;
  next_available_frame_index : Z;
  pm_addresses : gmap Z PhysicalAddress
}.

Record PageTable := {
  pt_map : list Z;
  fault_count : Z
}.

(** ** Address arithmetic *)

(** Lines 251-255 of [create_virtual_memory]: the entry built for one
    parsed integer. *)
Definition new_address (address : Z) : VirtualAddress :=
  {| va_address := address;
     page_number := Z.shiftr address PAGE_NUMBER_OFFSET_BITS;
     page_offset := Z.land address PAGE_OFFSET_MASK |}.

(** Line 200 of [map_addresses]. *)
Definition physical_raw (frame offset : Z) : Z :=
  Z.lor (Z.shiftl frame FRAME_NUMBER_OFFSET_BITS) offset.

(** ** C library pieces used by the program *)

(** An open stream: its bytes and the file position indicator. *)
Record FILE := { content : list byte; position : Z }.

Definition fopen (bytes : list byte) : FILE :=
  {| content := bytes; position := 0 |}.

(** [fseek(f, offset, SEEK_SET)]: a negative offset is refused and leaves
    the position where it was. *)
Definition fseek (f : FILE) (offset : Z) : FILE :=
  if offset <? 0 then f else {| content := content f; position := offset |}.

(** A byte of a file as seen through a [signed char]. *)
Definition schar_of_byte (b : byte) : Z :=
  let n := Z.of_N (Byte.to_N b) in
  if n <? 128 then n else n - 256.

(** [buffer[i], buffer[i+1], ...] receive [bytes]; the other cells keep
    what they held. *)
Fixpoint store_bytes (buffer : gmap Z Z) (i : Z) (bytes : list byte) : gmap Z Z :=
  match bytes with
  | [] => buffer
  | b :: rest => store_bytes (<[i := schar_of_byte b]> buffer) (i + 1) rest
  end.

(** [fread(buffer, sizeof(signed char), count, f)]: as many bytes as the file
    still has after its position, at most [count]. *)
Definition fread (buffer : gmap Z Z) (count : Z) (f : FILE) : gmap Z Z * FILE :=
  let bytes := take (Z.to_nat count) (drop (Z.to_nat (position f)) (content f)) in
  (store_bytes buffer 0 bytes,
   {| content := content f; position := position f + Z.of_nat (length bytes) |}).

(** [(float)n] and the quotient of line 216, in IEEE-754 binary32. *)
Definition float_of_int (n : Z) : spec_float := binary_normalize 24 128 n 0 false.

Definition float_div (x y : spec_float) : spec_float := SFdiv 24 128 x y.

(** A model of [atoi], to run the program on texts, as the GNU C library
    computes it ([strtol] in base ten, converted to [int]): white space, an
    optional sign, then the decimal digits up to the first other character.
    The properties below hold for any function in its place. *)
Definition is_space (c : byte) : bool :=
  match c with
  | x20 | x09 | x0a | x0b | x0c | x0d => true
  | _ => false
  end.

Definition digit (c : byte) : option Z :=
  match c with
  | x30 => Some 0 | x31 => Some 1 | x32 => Some 2 | x33 => Some 3 | x34 => Some 4
  | x35 => Some 5 | x36 => Some 6 | x37 => Some 7 | x38 => Some 8 | x39 => Some 9
  | _ => None
  end.

Fixpoint digits (acc : Z) (s : list byte) : Z :=
  match s with
  | [] => acc
  | c :: rest =>
      match digit c with
      | Some d => digits (10 * acc + d) rest
      | None => acc
      end
  end.

Fixpoint skip_spaces (s : list byte) : list byte :=
  match s with
  | [] => []
  | c :: rest => if is_space c then skip_spaces rest else s
  end.

(** [strtol] keeps its result inside [long], 64 bits wide. *)
Definition to_long (n : Z) : Z := Z.max (- 2 ^ 63) (Z.min n (2 ^ 63 - 1)).

(** The conversion of a [long] to an [int], 32 bits wide. *)
Definition to_int (n : Z) : Z := (n + 2 ^ 31) mod 2 ^ 32 - 2 ^ 31.

Definition atoi_model (s : list byte) : Z :=
  to_int
    (to_long
       match skip_spaces s with
       | x2d :: rest => - digits 0 rest
       | x2b :: rest => digits 0 rest
       | rest => digits 0 rest
       end).

(** ** Bounds-checked arrays *)

Definition in_block (size i : Z) : bool := (0 <=? i) && (i <? size).

Definition array_get (a : list Z) (i : Z) : option Z :=
  if in_block (Z.of_nat (length a)) i then a !! Z.to_nat i else None.

Definition array_set (a : list Z) (i v : Z) : option (list Z) :=
  if in_block (Z.of_nat (length a)) i then Some (<[Z.to_nat i := v]> a) else None.

(** ** [create_physical_memory] and [create_page_table] (lines 279-302) *)

Definition create_physical_memory : PhysicalMemory :=
  {| pm_address_count := 0;
     space := ∅;
     next_available_frame_index := 0;
     pm_addresses := ∅ |}.

Definition create_page_table : PageTable :=
  {| pt_map := replicate (Z.to_nat PAGE_TABLE_SIZE) UNMAPPED;
     fault_count := 0 |}.

(** ** [create_virtual_memory] (lines 226-272) *)

Section Parser.

(** What [atoi] returns at line 251, as a function of the characters that
    the line buffer holds.  The code puts no terminator after them; the
    properties of this file hold for every function in this place. *)
Variable atoi : list byte -> Z.

(** The [while] loop of lines 238-269.  [line] is
    [buffer_line_chars[0 .. buffer_line_index)] and [vas] the entries
    stored so far.  [buffer_char] is a plain [char]: where that type is
    signed, the byte 0xFF compares equal to [EOF] and ends the loop as the
    end of the file does. *)
Fixpoint scan (input : list byte) (line : list byte) (vas : list VirtualAddress)
  : list VirtualAddress :=
  match input with
  | [] => vas
  | xff :: _ => vas
  | x0a :: rest => scan rest [] (vas ++ [new_address (atoi line)])
  | c :: rest => scan rest (line ++ [c]) vas
  end.

Definition create_virtual_memory (file_input : list byte) : VirtualMemory :=
  {| addresses := scan file_input [] [] |}.

End Parser.

(** ** [map_addresses] (lines 142-218) *)

(** What [fprintf] writes to [output.txt]. *)
Inductive Line :=
| Translation (virtual physical : Z) (byte_value : option Z)
| PageFaults (faults : Z)
| PageFaultRate (rate : spec_float).

(** Everything the loop of [map_addresses] reads or writes. *)
Record State := {
  st_memory : PhysicalMemory;
  st_table : PageTable;
  st_store : FILE;
  st_buffer : gmap Z Z;
  st_output : list Line
}.

(** Lines 170-173: the frame handed out and the memory with its counter
    advanced. *)
Definition allocate_frame (pm : PhysicalMemory) : Z * PhysicalMemory :=
  (next_available_frame_index pm,
   {| pm_address_count := pm_address_count pm;
      space := space pm;
      next_available_frame_index :=
        (next_available_frame_index pm + 1) mod UCHAR_MODULUS;
      pm_addresses := pm_addresses pm |}).

(** Lines 176-179: the read buffer after the page was fetched. *)
Definition read_page (page_read_buffer : gmap Z Z) (backing_store : FILE) (page : Z)
  : gmap Z Z * FILE :=
  fread page_read_buffer PAGE_SIZE (fseek backing_store (page * PAGE_SIZE)).

(** Line 181, one iteration. *)
Definition copy_cell (page_read_buffer : gmap Z Z) (frame : Z) (sp : gmap Z Z) (i : Z)
  : option (gmap Z Z) :=
  let index := frame * FRAME_SIZE + i in
  if in_block PHYSICAL_MEMORY_SIZE index
  then Some (partial_alter (λ _, page_read_buffer !! i) index sp)
  else None.

(** Lines 180-182: [n] iterations from [i] on. *)
Fixpoint copy_page (page_read_buffer : gmap Z Z) (frame : Z) (i : Z) (n : nat)
    (sp : gmap Z Z) : option (gmap Z Z) :=
  match n with
  | O => Some sp
  | S n' =>
      sp' ← copy_cell page_read_buffer frame sp i;
      copy_page page_read_buffer frame (i + 1) n' sp'
  end.

(** Lines 165-187, the body of the [if]. *)
Definition page_fault (st : State) (va_page_number : Z) : option (State * Z) :=
  let faults := fault_count (st_table st) + 1 in
  let '(pa_frame_number, pm) := allocate_frame (st_memory st) in
  let '(page_read_buffer, backing_store) :=
    read_page (st_buffer st) (st_store st) va_page_number in
  sp ← copy_page page_read_buffer pa_frame_number 0 (Z.to_nat PAGE_SIZE) (space pm);
  entries ← array_set (pt_map (st_table st)) va_page_number pa_frame_number;
  Some ({| st_memory :=
             {| pm_address_count := pm_address_count pm;
                space := sp;
                next_available_frame_index := next_available_frame_index pm;
                pm_addresses := pm_addresses pm |};
           st_table := {| pt_map := entries; fault_count := faults |};
           st_store := backing_store;
           st_buffer := page_read_buffer;
           st_output := st_output st |},
        pa_frame_number).

(** Lines 193-211: the record of one translation, once the frame is known.
    [count] is [virtual_memory->address_count], the number of entries that
    [physical_memory->addresses] was resized to at line 148. *)
Definition report (count : Z) (st : State) (va : VirtualAddress) (pa_frame_number : Z)
  : option (State * PhysicalAddress) :=
  let pm := st_memory st in
  let pa_frame_offset := page_offset va in
  let index := pa_frame_offset + pa_frame_number * PAGE_SIZE in
  if in_block PHYSICAL_MEMORY_SIZE index then
    let physical_address :=
      {| pa_address := physical_raw pa_frame_number pa_frame_offset;
         frame_number := pa_frame_number;
         frame_offset := pa_frame_offset;
         value := space pm !! index |} in
    if in_block count pa_frame_number then
      let reported := <[pa_frame_number := physical_address]> (pm_addresses pm) in
      printed ← reported !! pa_frame_number;
      Some ({| st_memory :=
                 {| pm_address_count := pm_address_count pm + 1;
                    space := space pm;
                    next_available_frame_index := next_available_frame_index pm;
                    pm_addresses := reported |};
               st_table := st_table st;
               st_store := st_store st;
               st_buffer := st_buffer st;
               st_output :=
                 st_output st
                   ++ [Translation (va_address va) (pa_address printed) (value printed)] |},
            physical_address)
    else None
  else None.

(** Lines 153-211, one iteration of the outer loop.  The result carries the
    [PhysicalAddress] built by the iteration. *)
Definition translate (count : Z) (st : State) (va : VirtualAddress)
  : option (State * PhysicalAddress) :=
  looked_up ← array_get (pt_map (st_table st)) (page_number va);
  '(st1, pa_frame_number) ←
    (if decide (looked_up = UNMAPPED)
     then page_fault st (page_number va)
     else Some (st, looked_up));
  report count st1 va pa_frame_number.

(** The [for] loop of line 151 over the entries of the virtual memory. *)
Fixpoint map_loop (count : Z) (st : State) (vas : list VirtualAddress) : option State :=
  match vas with
  | [] => Some st
  | va :: rest => '(st', _) ← translate count st va; map_loop count st' rest
  end.

(** The statistics written by lines 215-216. *)
Definition summary (faults count : Z) : list Line :=
  [PageFaults faults;
   PageFaultRate (float_div (float_of_int faults) (float_of_int count))].

(** The state the loop starts from: the read buffer is fresh from
    [malloc]. *)
Definition loop_start (physical_memory : PhysicalMemory) (page_table : PageTable)
    (backing_store : FILE) (output_file : list Line) : State :=
  {| st_memory := physical_memory;
     st_table := page_table;
     st_store := backing_store;
     st_buffer := ∅;
     st_output := output_file |}.

Definition map_addresses (virtual_memory : VirtualMemory)
    (physical_memory : PhysicalMemory) (page_table : PageTable)
    (backing_store : FILE) (output_file : list Line) : option State :=
  let count := address_count virtual_memory in
  st ← map_loop count
         (loop_start physical_memory page_table backing_store output_file)
         (addresses virtual_memory);
  Some {| st_memory := st_memory st;
          st_table := st_table st;
          st_store := st_store st;
          st_buffer := st_buffer st;
          st_output := st_output st ++ summary (fault_count (st_table st)) count |}.

(** [main] (lines 86-135) once the three files are open: the content of
    [output.txt]. *)
Definition main (atoi : list byte -> Z) (file_input file_backing_store : list byte)
  : option (list Line) :=
  let virtual_memory := create_virtual_memory atoi file_input in
  let physical_memory := create_physical_memory in
  let page_table := create_page_table in
  st_output <$>
    map_addresses virtual_memory physical_memory page_table
      (fopen file_backing_store) [].

(** ** Runs of the translator *)

(** The virtual memory that [create_virtual_memory] builds from the
    integers of the input lines. *)
Definition virtual_memory_of (raws : list Z) : VirtualMemory :=
  {| addresses := new_address <$> raws |}.

(** The state in which [main] enters the loop. *)
Definition boot (store : list byte) : State :=
  loop_start create_physical_memory create_page_table (fopen store) [].

(** A whole run over the addresses [raws] with the backing store [store]. *)
Definition run (store : list byte) (raws : list Z) : option State :=
  map_addresses (virtual_memory_of raws) create_physical_memory create_page_table
    (fopen store) [].

(** The state of the run when [k] addresses have been processed. *)
Definition state_after (store : list byte) (raws : list Z) (k : nat) : option State :=
  map_loop (Z.of_nat (length raws)) (boot store) (take k (new_address <$> raws)).

(** The iteration that processes address number [k] (from zero). *)
Definition translation (store : list byte) (raws : list Z) (k : nat)
  : option (State * PhysicalAddress) :=
  st ← state_after store raws k;
  raw ← raws !! k;
  translate (Z.of_nat (length raws)) st (new_address raw).

(** The addresses the page table and the physical memory are sized for. *)
Definition valid_address (raw : Z) : Prop := 0 <= raw < PAGE_TABLE_SIZE * PAGE_SIZE.

Definition page_of (raw : Z) : Z := page_number (new_address raw).

Definition offset_of (raw : Z) : Z := page_offset (new_address raw).

(** The number of distinct page numbers among [raws]. *)
Definition distinct_pages (raws : list Z) : nat :=
  size (list_to_set (page_of <$> raws) : gset Z).

(** The frames handed out by the faults of a loop, in the order of the
    faults. *)
Fixpoint allocations (count : Z) (st : State) (vas : list VirtualAddress) : list Z :=
  match vas with
  | [] => []
  | va :: rest =>
      match translate count st va with
      | None => []
      | Some (st', pa) =>
          (if decide (array_get (pt_map (st_table st)) (page_number va) = Some UNMAPPED)
           then [frame_number pa] else [])
            ++ allocations count st' rest
      end
  end.

(** The frames handed out by [n] successive requests to the allocator. *)
Fixpoint allocate_many (n : nat) (pm : PhysicalMemory) : list Z :=
  match n with
  | O => []
  | S n' => let '(frame, pm') := allocate_frame pm in frame :: allocate_many n' pm'
  end.

(** The fault rate line of an output, if there is one. *)
Fixpoint reported_rate (out : list Line) : option spec_float :=
  match out with
  | [] => None
  | PageFaultRate rate :: _ => Some rate
  | _ :: rest => reported_rate rest
  end.

(** The fault count line of an output, if there is one. *)
Fixpoint reported_faults (out : list Line) : option Z :=
  match out with
  | [] => None
  | PageFaults faults :: _ => Some faults
  | _ :: rest => reported_faults rest
  end.

(** The translation records of an output. *)
Fixpoint records (out : list Line) : list (Z * Z * option Z) :=
  match out with
  | [] => []
  | Translation v p b :: rest => (v, p, b) :: records rest
  | _ :: rest => records rest
  end.

(** A quotient that is a number. *)
Definition is_number (x : spec_float) : bool :=
  match x with
  | S754_nan => false
  | _ => true
  end.

(** ** Invariant of the loop and the effect of its parts *)

(** The entries that [create_virtual_memory] can build from a valid
    address. *)
Definition wf_address (va : VirtualAddress) : Prop :=
  0 <= page_number va < PAGE_TABLE_SIZE /\ 0 <= page_offset va < PAGE_SIZE.

(** The state reached when the pages [seen] have been referenced, in that
    order. *)
Record consistent (seen : list Z) (st : State) : Prop := {
  c_length : length (pt_map (st_table st)) = Z.to_nat PAGE_TABLE_SIZE;
  c_mapped : forall p, 0 <= p < PAGE_TABLE_SIZE ->
    (array_get (pt_map (st_table st)) p = Some UNMAPPED <-> p ∉ seen);
  c_frames : forall p f, array_get (pt_map (st_table st)) p = Some f ->
    f <> UNMAPPED -> 0 <= f < fault_count (st_table st);
  c_seen : forall p, p ∈ seen -> 0 <= p < PAGE_TABLE_SIZE;
  c_faults : fault_count (st_table st) = Z.of_nat (size (list_to_set seen : gset Z));
  c_next : next_available_frame_index (st_memory st)
           = fault_count (st_table st) mod UCHAR_MODULUS;
  c_count : pm_address_count (st_memory st) = Z.of_nat (length seen)
}.

(** [st1] is [st] after the page [p] was faulted into the frame [f]. *)
Record faulted (st : State) (p : Z) (st1 : State) (f : Z) : Prop := {
  f_frame : f = next_available_frame_index (st_memory st);
  f_next : next_available_frame_index (st_memory st1)
           = (next_available_frame_index (st_memory st) + 1) mod UCHAR_MODULUS;
  f_faults : fault_count (st_table st1) = fault_count (st_table st) + 1;
  f_map : pt_map (st_table st1) = <[Z.to_nat p := f]> (pt_map (st_table st));
  f_buffer : st_buffer st1 = (read_page (st_buffer st) (st_store st) p).1;
  f_store : content (st_store st1) = content (st_store st);
  f_space : forall index,
    space (st_memory st1) !! index
    = if decide (f * FRAME_SIZE <= index < f * FRAME_SIZE + PAGE_SIZE)
      then st_buffer st1 !! (index - f * FRAME_SIZE)
      else space (st_memory st) !! index;
  f_count : pm_address_count (st_memory st1) = pm_address_count (st_memory st);
  f_output : st_output st1 = st_output st
}.

(** [st'] and [pa] are what lines 193-211 make of [st], the entry [va] and
    the frame [f]. *)
Record reported (st : State) (va : VirtualAddress) (f : Z)
    (st' : State) (pa : PhysicalAddress) : Prop := {
  r_table : st_table st' = st_table st;
  r_space : space (st_memory st') = space (st_memory st);
  r_next : next_available_frame_index (st_memory st')
           = next_available_frame_index (st_memory st);
  r_count : pm_address_count (st_memory st') = pm_address_count (st_memory st) + 1;
  r_buffer : st_buffer st' = st_buffer st;
  r_store : st_store st' = st_store st;
  r_frame : frame_number pa = f;
  r_offset : frame_offset pa = page_offset va;
  r_address : pa_address pa = physical_raw f (page_offset va);
  r_value : value pa = space (st_memory st) !! (page_offset va + f * PAGE_SIZE);
  r_output : st_output st'
             = st_output st ++ [Translation (va_address va) (pa_address pa) (value pa)]
}.

(** [st'] is a later state of the loop than [st]: what [st] had mapped and
    loaded is still there. *)
Record extends (st st' : State) : Prop := {
  e_faults : fault_count (st_table st) <= fault_count (st_table st');
  e_entries : forall p f, array_get (pt_map (st_table st)) p = Some f ->
    f <> UNMAPPED -> array_get (pt_map (st_table st')) p = Some f;
  e_space : forall index, index < fault_count (st_table st) * PAGE_SIZE ->
    space (st_memory st') !! index = space (st_memory st) !! index;
  e_store : content (st_store st') = content (st_store st)
}.

(** The two ways through one iteration: [st] with the pages [seen] becomes
    [st'] and yields [pa] for the entry [va]. *)
Definition iteration (seen : list Z) (st : State) (va : VirtualAddress)
    (st' : State) (pa : PhysicalAddress) : Prop :=
  (page_number va ∈ seen /\
   array_get (pt_map (st_table st)) (page_number va) = Some (frame_number pa) /\
   frame_number pa <> UNMAPPED /\
   reported st va (frame_number pa) st' pa)
  \/
  ((page_number va ∉ seen) /\
   array_get (pt_map (st_table st)) (page_number va) = Some UNMAPPED /\
   frame_number pa = fault_count (st_table st) /\
   exists st1,
     faulted st (page_number va) st1 (frame_number pa) /\
     reported st1 va (frame_number pa) st' pa).

(** The entry of page [p] in the page table when [k] addresses have been
    processed. *)
Definition entry_at (store : list byte) (raws : list Z) (k : nat) (p : Z) : option Z :=
  st ← state_after store raws k; array_get (pt_map (st_table st)) p.

(** The frames handed out in a run, in the order of its faults. *)
Definition run_allocations (store : list byte) (raws : list Z) : list Z :=
  allocations (address_count (virtual_memory_of raws)) (boot store)
    (addresses (virtual_memory_of raws)).

(** ** The entry point ([main], lines 86-135) *)





(** ** Tactics *)

(** Projections of the records that the model builds. *)
Ltac fields :=
  cbn [st_memory st_table st_store st_buffer st_output
       pm_address_count space next_available_frame_index pm_addresses
       pt_map fault_count content position
       pa_address frame_number frame_offset value] in *.

(** Membership of a byte in an explicit text. *)
Ltac not_in_text :=
  let H := fresh in
  intros H;
  repeat (apply elem_of_cons in H as [H | H]; [discriminate H |]);
  by apply elem_of_nil in H.

(** * Properties *)

(** ** Arrays, files and the page copy *)

Lemma in_block_spec (size i : Z) : in_block size i = true <-> 0 <= i < size.
Proof. unfold in_block. rewrite andb_true_iff, Z.leb_le, Z.ltb_lt. tauto. Qed.

Lemma in_block_false (size i : Z) : in_block size i = false <-> ~ (0 <= i < size).
Proof. rewrite <- in_block_spec. destruct (in_block size i); split; congruence. Qed.

Lemma array_get_Some (a : list Z) (i v : Z) :
  array_get a i = Some v <-> 0 <= i /\ a !! Z.to_nat i = Some v.
Proof.
  unfold array_get. destruct (in_block _ i) eqn:Hb.
  - apply in_block_spec in Hb. split; [intros H; split; [lia | done] | tauto].
  - apply in_block_false in Hb. split; [done |].
    intros [H0 Hl]. apply lookup_lt_Some in Hl. lia.
Qed.

Lemma array_get_in_range (a : list Z) (i : Z) :
  0 <= i < Z.of_nat (length a) -> is_Some (array_get a i).
Proof.
  intros Hi. unfold array_get.
  rewrite (proj2 (in_block_spec _ _) Hi). apply lookup_lt_is_Some. lia.
Qed.

Lemma array_get_None (a : list Z) (i : Z) :
  ~ (0 <= i < Z.of_nat (length a)) -> array_get a i = None.
Proof.
  intros Hi. unfold array_get. by rewrite (proj2 (in_block_false _ _) Hi).
Qed.

Lemma array_set_in_range (a : list Z) (i v : Z) :
  0 <= i < Z.of_nat (length a) -> array_set a i v = Some (<[Z.to_nat i := v]> a).
Proof.
  intros Hi. unfold array_set. by rewrite (proj2 (in_block_spec _ _) Hi).
Qed.

Lemma array_get_insert (a : list Z) (i j v : Z) :
  0 <= i < Z.of_nat (length a) -> 0 <= j ->
  array_get (<[Z.to_nat i := v]> a) j
  = if decide (i = j) then Some v else array_get a j.
Proof.
  intros Hi Hj. unfold array_get. rewrite length_insert.
  destruct (decide (i = j)) as [<- | Hne].
  - rewrite (proj2 (in_block_spec _ _) Hi).
    apply list_lookup_insert_eq. lia.
  - destruct (in_block _ j); [| done].
    apply list_lookup_insert_ne. lia.
Qed.

Lemma store_bytes_lookup (bytes : list byte) (buffer : gmap Z Z) (i j : Z) :
  store_bytes buffer i bytes !! j
  = if decide (i <= j < i + Z.of_nat (length bytes))
    then schar_of_byte <$> bytes !! Z.to_nat (j - i)
    else buffer !! j.
Proof.
  revert buffer i. induction bytes as [| b rest IH]; intros buffer i; simpl.
  - destruct (decide _); [lia | done].
  - rewrite IH. destruct (decide (i = j)) as [-> | Hne].
    + rewrite Z.sub_diag. simpl.
      rewrite decide_False by lia. rewrite decide_True by lia.
      apply lookup_insert_eq.
    + destruct (decide (i + 1 <= j < _)) as [Hin | Hout].
      * rewrite decide_True by lia.
        replace (Z.to_nat (j - i)) with (S (Z.to_nat (j - (i + 1)))) by lia.
        done.
      * rewrite decide_False by lia. by apply lookup_insert_ne.
Qed.

(** What the buffer holds once a page was fetched into it: the bytes the
    store has for the page, and the previous content where the store ends
    early. *)
Lemma read_page_lookup (buffer : gmap Z Z) (store : FILE) (page i : Z) :
  0 <= page -> 0 <= i < PAGE_SIZE ->
  (read_page buffer store page).1 !! i
  = match content store !! Z.to_nat (page * PAGE_SIZE + i) with
    | Some b => Some (schar_of_byte b)
    | None => buffer !! i
    end.
Proof.
  intros Hp Hi. unfold read_page, fread, fseek, PAGE_SIZE in *.
  destruct (page * 256 <? 0) eqn:Hneg; [apply Z.ltb_lt in Hneg; lia |].
  cbn [fst position content].
  rewrite store_bytes_lookup, length_take, length_drop.
  rewrite Z.sub_0_r.
  destruct (content store !! Z.to_nat (page * 256 + i)) as [b |] eqn:Hb.
  - pose proof (lookup_lt_Some _ _ _ Hb) as Hlt.
    rewrite decide_True by lia.
    rewrite lookup_take_lt by lia. rewrite lookup_drop.
    replace (Z.to_nat (page * 256) + Z.to_nat i)%nat
      with (Z.to_nat (page * 256 + i)) by lia.
    by rewrite Hb.
  - apply lookup_ge_None in Hb. rewrite decide_False by lia. done.
Qed.

Lemma read_page_content (buffer : gmap Z Z) (store : FILE) (page : Z) :
  content (read_page buffer store page).2 = content store.
Proof.
  unfold read_page, fread, fseek. by destruct (page * PAGE_SIZE <? 0).
Qed.

Lemma copy_page_spec (buffer : gmap Z Z) (frame : Z) (n : nat) (i : Z) (sp : gmap Z Z) :
  0 <= frame * FRAME_SIZE + i ->
  frame * FRAME_SIZE + i + Z.of_nat n <= PHYSICAL_MEMORY_SIZE ->
  exists sp',
    copy_page buffer frame i n sp = Some sp' /\
    forall index,
      sp' !! index
      = if decide (frame * FRAME_SIZE + i <= index < frame * FRAME_SIZE + i + Z.of_nat n)
        then buffer !! (index - frame * FRAME_SIZE)
        else sp !! index.
Proof.
  revert i sp. induction n as [| n IH]; intros i sp Hlo Hhi.
  - exists sp. split; [done |]. intros index. rewrite decide_False by lia. done.
  - simpl. unfold copy_cell.
    rewrite (proj2 (in_block_spec _ _)) by lia. simpl.
    destruct (IH (i + 1) (partial_alter (λ _, buffer !! i) (frame * FRAME_SIZE + i) sp))
      as (sp' & Hrun & Hsp'); [lia | lia |].
    exists sp'. split; [done |]. intros index. rewrite Hsp'.
    destruct (decide (index = frame * FRAME_SIZE + i)) as [-> | Hne].
    + rewrite decide_False by lia. rewrite decide_True by lia.
      rewrite lookup_partial_alter_eq. f_equal. lia.
    + rewrite lookup_partial_alter_ne by done.
      destruct (decide (frame * FRAME_SIZE + (i + 1) <= index < _)).
      * rewrite decide_True by lia. done.
      * rewrite decide_False by lia. done.
Qed.

(** The copy fails exactly when the frame does not lie in the memory. *)
Lemma copy_page_out_of_range (buffer : gmap Z Z) (frame : Z) (sp : gmap Z Z) :
  ~ (0 <= frame < PAGE_TABLE_SIZE) ->
  copy_page buffer frame 0 (Z.to_nat PAGE_SIZE) sp = None.
Proof.
  intros Hf.
  assert (Hgen : forall n i s, 0 <= i -> (0 < n)%nat -> i + Z.of_nat n <= PAGE_SIZE ->
            copy_page buffer frame i n s = None).
  { induction n as [| n IH]; intros i s Hi Hn Hle; [lia |].
    simpl. unfold copy_cell.
    destruct (in_block PHYSICAL_MEMORY_SIZE (frame * FRAME_SIZE + i)) eqn:Hb; [| done].
    simpl. apply in_block_spec in Hb.
    destruct n as [| n'].
    - exfalso. unfold PHYSICAL_MEMORY_SIZE, PAGE_TABLE_SIZE, PAGE_SIZE, FRAME_SIZE in *. lia.
    - apply IH; lia. }
  apply Hgen; unfold PAGE_SIZE; lia.
Qed.

(** ** The parts of one iteration *)

Lemma report_spec (count : Z) (st : State) (va : VirtualAddress) (f : Z) :
  0 <= f < PAGE_TABLE_SIZE -> 0 <= page_offset va < PAGE_SIZE -> f < count ->
  exists st' pa, report count st va f = Some (st', pa) /\ reported st va f st' pa.
Proof.
  intros Hf Ho Hc. unfold report.
  rewrite (proj2 (in_block_spec _ _))
    by (unfold PHYSICAL_MEMORY_SIZE, PAGE_TABLE_SIZE, PAGE_SIZE in *; lia).
  rewrite (proj2 (in_block_spec count f)) by lia.
  rewrite lookup_insert_eq. simpl.
  eexists _, _. split; [reflexivity |]. by constructor.
Qed.

(** The record is refused when its frame or its byte is out of range. *)
Lemma report_out_of_range (count : Z) (st : State) (va : VirtualAddress) (f : Z) :
  ~ (0 <= f < count) -> report count st va f = None.
Proof.
  intros Hf. unfold report.
  destruct (in_block PHYSICAL_MEMORY_SIZE _); [| done].
  by rewrite (proj2 (in_block_false count f)).
Qed.

Lemma page_fault_spec (st : State) (p : Z) :
  0 <= p < Z.of_nat (length (pt_map (st_table st))) ->
  0 <= next_available_frame_index (st_memory st) < PAGE_TABLE_SIZE ->
  exists st1,
    page_fault st p = Some (st1, next_available_frame_index (st_memory st)) /\
    faulted st p st1 (next_available_frame_index (st_memory st)).
Proof.
  intros Hp Hn. unfold page_fault, allocate_frame.
  destruct (read_page (st_buffer st) (st_store st) p) as [buffer store] eqn:Hread.
  cbn [space pm_address_count next_available_frame_index pm_addresses].
  destruct (copy_page_spec buffer (next_available_frame_index (st_memory st))
              (Z.to_nat PAGE_SIZE) 0 (space (st_memory st)))
    as (sp & Hcopy & Hsp);
    [unfold FRAME_SIZE, PAGE_TABLE_SIZE in *; lia
    |unfold FRAME_SIZE, PHYSICAL_MEMORY_SIZE, PAGE_TABLE_SIZE, PAGE_SIZE in *; lia |].
  rewrite Hcopy. simpl. rewrite array_set_in_range by done. simpl.
  eexists. split; [reflexivity |].
  constructor; fields; try done.
  - by rewrite Hread.
  - by rewrite <- (read_page_content (st_buffer st) (st_store st) p), Hread.
  - intros index. rewrite Hsp. rewrite Z.add_0_r.
    rewrite Z2Nat.id by (unfold PAGE_SIZE; lia). done.
Qed.

Lemma translate_hit (count : Z) (st : State) (va : VirtualAddress) (f : Z) :
  array_get (pt_map (st_table st)) (page_number va) = Some f -> f <> UNMAPPED ->
  translate count st va = report count st va f.
Proof.
  intros Hget Hf. unfold translate. rewrite Hget. simpl.
  destruct (decide (f = UNMAPPED)); [contradiction | reflexivity].
Qed.

Lemma translate_fault (count : Z) (st : State) (va : VirtualAddress) :
  array_get (pt_map (st_table st)) (page_number va) = Some UNMAPPED ->
  translate count st va
  = '(st1, f) ← page_fault st (page_number va); report count st1 va f.
Proof.
  intros Hget. unfold translate. rewrite Hget. simpl.
  destruct (decide (UNMAPPED = UNMAPPED)); [reflexivity | contradiction].
Qed.

(** A page number outside of the page table stops the run. *)
Lemma translate_out_of_range (count : Z) (st : State) (va : VirtualAddress) :
  ~ (0 <= page_number va < Z.of_nat (length (pt_map (st_table st)))) ->
  translate count st va = None.
Proof.
  intros Hp. unfold translate. by rewrite array_get_None.
Qed.

(** ** Counting the pages seen *)

Lemma size_list_to_set_le (l : list Z) :
  (size (list_to_set l : gset Z) <= length l)%nat.
Proof.
  induction l as [| a l IH].
  - change (list_to_set [] : gset Z) with (∅ : gset Z). by rewrite size_empty.
  - change (list_to_set (a :: l) : gset Z) with ({[a]} ∪ list_to_set l : gset Z).
    rewrite size_union_alt, size_singleton. cbn [length].
    pose proof (subseteq_size (list_to_set l ∖ {[a]}) (list_to_set l : gset Z)) as Hsub.
    specialize (Hsub ltac:(set_solver)). lia.
Qed.

Lemma size_list_to_set_snoc (l : list Z) (p : Z) :
  size (list_to_set (l ++ [p]) : gset Z)
  = if decide (p ∈ l) then size (list_to_set l : gset Z)
    else S (size (list_to_set l : gset Z)).
Proof.
  rewrite list_to_set_snoc_L. destruct (decide (p ∈ l)) as [Hin | Hout].
  - f_equal. set_solver.
  - rewrite size_union by set_solver. rewrite size_singleton. lia.
Qed.

(** A page table with an unmapped entry has seen fewer pages than it has
    entries. *)
Lemma size_seen_room (l : list Z) (q : Z) :
  (forall p, p ∈ l -> 0 <= p < PAGE_TABLE_SIZE) ->
  0 <= q < PAGE_TABLE_SIZE -> q ∉ l ->
  Z.of_nat (size (list_to_set l : gset Z)) < PAGE_TABLE_SIZE.
Proof.
  intros Hl Hq Hout.
  pose (table := list_to_set (seqZ 0 PAGE_TABLE_SIZE) : gset Z).
  assert (Hsub : list_to_set l ⊆ table ∖ {[q]}).
  { intros p Hp. apply elem_of_list_to_set in Hp.
    apply elem_of_difference. split.
    - apply elem_of_list_to_set, elem_of_seqZ. specialize (Hl p Hp). lia.
    - intros ->%elem_of_singleton. done. }
  apply subseteq_size in Hsub.
  rewrite size_difference in Hsub.
  - unfold table in Hsub. rewrite size_singleton in Hsub.
    rewrite (size_list_to_set (seqZ 0 PAGE_TABLE_SIZE)) in Hsub by apply NoDup_seqZ.
    rewrite length_seqZ in Hsub. unfold PAGE_TABLE_SIZE in *. lia.
  - intros x ->%elem_of_singleton. apply elem_of_list_to_set, elem_of_seqZ. lia.
Qed.

Lemma size_seen_bound (l : list Z) :
  (forall p, p ∈ l -> 0 <= p < PAGE_TABLE_SIZE) ->
  Z.of_nat (size (list_to_set l : gset Z)) <= PAGE_TABLE_SIZE.
Proof.
  intros Hl.
  assert (Hsub : (list_to_set l : gset Z) ⊆ list_to_set (seqZ 0 PAGE_TABLE_SIZE)).
  { intros p Hp. apply elem_of_list_to_set in Hp.
    apply elem_of_list_to_set, elem_of_seqZ. specialize (Hl p Hp). lia. }
  apply subseteq_size in Hsub.
  rewrite (size_list_to_set (seqZ 0 PAGE_TABLE_SIZE)) in Hsub by apply NoDup_seqZ.
  rewrite length_seqZ in Hsub. unfold PAGE_TABLE_SIZE in *. lia.
Qed.

(** ** The invariant *)

Lemma consistent_boot (store : list byte) : consistent [] (boot store).
Proof.
  constructor; unfold boot, loop_start, create_page_table, create_physical_memory; fields.
  - by rewrite length_replicate.
  - intros p Hp. split; [intros _; apply not_elem_of_nil |]. intros _.
    apply array_get_Some. split; [lia |].
    apply lookup_replicate_2. unfold PAGE_TABLE_SIZE in *. lia.
  - intros p f [_ Hget]%array_get_Some Hf.
    apply lookup_replicate in Hget. tauto.
  - intros p Hp. by apply not_elem_of_nil in Hp.
  - reflexivity.
  - reflexivity.
  - reflexivity.
Qed.

Lemma consistent_faults_le (seen : list Z) (st : State) :
  consistent seen st ->
  0 <= fault_count (st_table st) <= PAGE_TABLE_SIZE /\
  fault_count (st_table st) <= Z.of_nat (length seen).
Proof.
  intros Hc. rewrite (c_faults _ _ Hc).
  pose proof (size_seen_bound seen (c_seen _ _ Hc)).
  pose proof (size_list_to_set_le seen). lia.
Qed.

Lemma consistent_hit (seen : list Z) (st st' : State) (va : VirtualAddress)
    (f : Z) (pa : PhysicalAddress) :
  consistent seen st -> page_number va ∈ seen ->
  reported st va f st' pa ->
  consistent (seen ++ [page_number va]) st'.
Proof.
  intros Hc Hin Hr.
  constructor; rewrite ?(r_table _ _ _ _ _ Hr), ?(r_next _ _ _ _ _ Hr),
    ?(r_count _ _ _ _ _ Hr).
  - apply (c_length _ _ Hc).
  - intros p Hp. rewrite (c_mapped _ _ Hc p Hp). set_solver.
  - apply (c_frames _ _ Hc).
  - intros p [Hp | ->%list_elem_of_singleton]%elem_of_app; by apply (c_seen _ _ Hc).
  - rewrite size_list_to_set_snoc, decide_True by done. apply (c_faults _ _ Hc).
  - apply (c_next _ _ Hc).
  - rewrite (c_count _ _ Hc), length_app. simpl. lia.
Qed.

Lemma consistent_fault (seen : list Z) (st st1 st' : State) (va : VirtualAddress)
    (f : Z) (pa : PhysicalAddress) :
  consistent seen st -> 0 <= page_number va < PAGE_TABLE_SIZE ->
  page_number va ∉ seen ->
  f = fault_count (st_table st) ->
  faulted st (page_number va) st1 f ->
  reported st1 va f st' pa ->
  consistent (seen ++ [page_number va]) st'.
Proof.
  intros Hc Hp Hout Hf Hfault Hr.
  pose proof (c_length _ _ Hc) as Hlen.
  assert (Hrange : 0 <= page_number va < Z.of_nat (length (pt_map (st_table st))))
    by (rewrite Hlen; unfold PAGE_TABLE_SIZE in *; lia).
  pose proof (consistent_faults_le _ _ Hc) as [Hfc _].
  constructor; rewrite ?(r_table _ _ _ _ _ Hr), ?(r_next _ _ _ _ _ Hr),
    ?(r_count _ _ _ _ _ Hr), ?(f_map _ _ _ _ Hfault), ?(f_faults _ _ _ _ Hfault),
    ?(f_next _ _ _ _ Hfault), ?(f_count _ _ _ _ Hfault).
  - by rewrite length_insert.
  - intros q Hq. rewrite array_get_insert by lia.
    destruct (decide (page_number va = q)) as [<- | Hne].
    + split; [| set_solver]. intros [= Heq]. unfold UNMAPPED in *. lia.
    + rewrite (c_mapped _ _ Hc q Hq). set_solver.
  - intros q g Hget Hg.
    destruct (decide (0 <= q)) as [Hq | Hq];
      [| apply array_get_Some in Hget; lia].
    rewrite array_get_insert in Hget by lia.
    destruct (decide (page_number va = q)) as [<- | Hne].
    + inversion Hget. lia.
    + pose proof (c_frames _ _ Hc q g Hget Hg). lia.
  - intros q [Hq | ->%list_elem_of_singleton]%elem_of_app;
      [by apply (c_seen _ _ Hc) | done].
  - rewrite size_list_to_set_snoc, decide_False by done.
    rewrite (c_faults _ _ Hc). lia.
  - rewrite (c_next _ _ Hc). apply Z.add_mod_idemp_l. by unfold UCHAR_MODULUS.
  - rewrite (c_count _ _ Hc), length_app. simpl. lia.
Qed.

(** ** One iteration *)

(** From a consistent state an entry with a valid page number and offset is
    always translated, either through the entry of its page (a hit) or
    through a fault that maps the page to the frame numbered by the faults so
    far. *)
Lemma translate_spec (count : Z) (seen : list Z) (st : State) (va : VirtualAddress) :
  consistent seen st -> wf_address va -> Z.of_nat (length seen) < count ->
  exists st' pa,
    translate count st va = Some (st', pa) /\
    consistent (seen ++ [page_number va]) st' /\
    iteration seen st va st' pa.
Proof.
  intros Hc [Hp Ho] Hcount.
  pose proof (c_length _ _ Hc) as Hlen.
  pose proof (consistent_faults_le _ _ Hc) as [Hfc Hfl].
  assert (Hrange : 0 <= page_number va < Z.of_nat (length (pt_map (st_table st))))
    by (rewrite Hlen; unfold PAGE_TABLE_SIZE in *; lia).
  destruct (array_get_in_range _ _ Hrange) as [f Hget].
  destruct (decide (f = UNMAPPED)) as [-> | Hf].
  - (* fault *)
    pose proof (proj1 (c_mapped _ _ Hc _ Hp) Hget) as Hout.
    pose proof (size_seen_room seen _ (c_seen _ _ Hc) Hp Hout) as Hroom.
    rewrite <- (c_faults _ _ Hc) in Hroom.
    assert (Hnext : next_available_frame_index (st_memory st) = fault_count (st_table st)).
    { rewrite (c_next _ _ Hc). apply Z.mod_small.
      unfold UCHAR_MODULUS, PAGE_TABLE_SIZE in *. lia. }
    destruct (page_fault_spec st (page_number va) Hrange) as (st1 & Hpf & Hfault);
      [rewrite Hnext; lia |].
    rewrite Hnext in Hpf, Hfault.
    destruct (report_spec count st1 va (fault_count (st_table st)))
      as (st' & pa & Hrep & Hr); [lia | done | lia |].
    exists st', pa. rewrite translate_fault, Hpf by done. simpl.
    pose proof (r_frame _ _ _ _ _ Hr) as Hframe.
    split; [done |]. split.
    + exact (consistent_fault seen st st1 st' va _ pa Hc Hp Hout eq_refl Hfault Hr).
    + right. rewrite Hframe. eauto 6.
  - (* hit *)
    pose proof (c_frames _ _ Hc _ _ Hget Hf) as Hfr.
    assert (Hin : page_number va ∈ seen).
    { destruct (decide (page_number va ∈ seen)) as [| Hout]; [done |].
      apply (c_mapped _ _ Hc _ Hp) in Hout. congruence. }
    destruct (report_spec count st va f) as (st' & pa & Hrep & Hr);
      [lia | done | lia |].
    exists st', pa. rewrite (translate_hit _ _ _ f) by done.
    pose proof (r_frame _ _ _ _ _ Hr) as Hframe.
    split; [done |]. split.
    + exact (consistent_hit seen st st' va f pa Hc Hin Hr).
    + left. rewrite Hframe. eauto.
Qed.

(** ** The loop *)

Lemma map_loop_app (count : Z) (st : State) (l1 l2 : list VirtualAddress) :
  map_loop count st (l1 ++ l2)
  = st' ← map_loop count st l1; map_loop count st' l2.
Proof.
  revert st. induction l1 as [| va l1 IH]; intros st; [done |].
  simpl. destruct (translate count st va) as [[st' pa] |]; [| done].
  simpl. apply IH.
Qed.

Lemma map_loop_snoc (count : Z) (st : State) (l : list VirtualAddress)
    (va : VirtualAddress) :
  map_loop count st (l ++ [va])
  = st' ← map_loop count st l; fst <$> translate count st' va.
Proof.
  rewrite map_loop_app. destruct (map_loop count st l) as [st' |]; [| done].
  simpl. by destruct (translate count st' va) as [[st'' pa] |].
Qed.

Lemma new_address_wf (raw : Z) : valid_address raw -> wf_address (new_address raw).
Proof.
  unfold valid_address, wf_address, new_address,
    PAGE_TABLE_SIZE, PAGE_SIZE, PAGE_NUMBER_OFFSET_BITS, PAGE_OFFSET_MASK.
  intros Hraw. simpl.
  rewrite Z.shiftr_div_pow2 by lia.
  change 255 with (Z.ones 8). rewrite Z.land_ones by lia.
  change (2 ^ 8) with 256. split.
  - split; [apply Z.div_pos; lia | apply Z.div_lt_upper_bound; lia].
  - apply Z.mod_pos_bound. lia.
Qed.

(** The model takes the offset to be what line 255 computes, whatever the
    address. *)
Lemma offset_of_range (raw : Z) : 0 <= offset_of raw < PAGE_SIZE.
Proof.
  unfold offset_of, new_address, PAGE_OFFSET_MASK, PAGE_SIZE. simpl.
  change 255 with (Z.ones 8). rewrite Z.land_ones by lia.
  apply Z.mod_pos_bound. lia.
Qed.

Lemma state_after_S (store : list byte) (raws : list Z) (k : nat) (raw : Z) :
  raws !! k = Some raw ->
  state_after store raws (S k) = fst <$> translation store raws k.
Proof.
  intros Hk. unfold state_after, translation.
  rewrite (take_S_r _ _ (new_address raw)) by (by rewrite list_lookup_fmap, Hk).
  rewrite map_loop_snoc. fold (state_after store raws k).
  destruct (state_after store raws k) as [st |]; [| done].
  simpl. by rewrite Hk.
Qed.

(** Every prefix of a run over valid addresses is defined and consistent. *)
Lemma state_after_consistent (store : list byte) (raws : list Z) (k : nat) :
  Forall valid_address raws -> (k <= length raws)%nat ->
  exists st,
    state_after store raws k = Some st /\
    consistent (page_of <$> take k raws) st.
Proof.
  intros Hvalid. induction k as [| k IH]; intros Hk.
  - exists (boot store). split; [done |]. apply consistent_boot.
  - destruct IH as (st & Hst & Hc); [lia |].
    destruct (lookup_lt_is_Some_2 raws k) as [raw Hraw]; [lia |].
    assert (Hwf : wf_address (new_address raw)).
    { apply new_address_wf. eapply Forall_lookup_1; eauto. }
    destruct (translate_spec (Z.of_nat (length raws)) _ st _ Hc Hwf)
      as (st' & pa & Htr & Hc' & _).
    { rewrite length_fmap, length_take. lia. }
    exists st'. split.
    + rewrite (state_after_S _ _ _ raw) by done.
      unfold translation. rewrite Hst. simpl. rewrite Hraw. simpl.
      by rewrite Htr.
    + rewrite (take_S_r _ _ raw) by done. by rewrite fmap_app.
Qed.

Lemma extends_refl (st : State) : extends st st.
Proof. by constructor. Qed.

Lemma extends_trans (st1 st2 st3 : State) :
  extends st1 st2 -> extends st2 st3 -> extends st1 st3.
Proof.
  intros H12 H23. constructor.
  - pose proof (e_faults _ _ H12). pose proof (e_faults _ _ H23). lia.
  - intros p f Hget Hf. eapply (e_entries _ _ H23); [| done].
    by eapply (e_entries _ _ H12).
  - intros index Hi. rewrite (e_space _ _ H23), (e_space _ _ H12); [done | done |].
    pose proof (e_faults _ _ H12). unfold PAGE_SIZE in *. lia.
  - by rewrite (e_store _ _ H23), (e_store _ _ H12).
Qed.

Lemma reported_extends (st st' : State) (va : VirtualAddress) (f : Z)
    (pa : PhysicalAddress) :
  reported st va f st' pa -> extends st st'.
Proof.
  intros Hr. constructor; rewrite ?(r_table _ _ _ _ _ Hr), ?(r_space _ _ _ _ _ Hr),
    ?(r_store _ _ _ _ _ Hr); done.
Qed.

Lemma faulted_extends (seen : list Z) (st st1 : State) (p : Z) :
  consistent seen st ->
  array_get (pt_map (st_table st)) p = Some UNMAPPED ->
  faulted st p st1 (fault_count (st_table st)) ->
  extends st st1.
Proof.
  intros Hc Hget Hfault.
  pose proof (proj1 (array_get_Some _ _ _) Hget) as [Hp0 Hl].
  apply lookup_lt_Some in Hl.
  constructor; rewrite ?(f_faults _ _ _ _ Hfault), ?(f_map _ _ _ _ Hfault).
  - lia.
  - intros q f Hq Hf.
    pose proof (proj1 (array_get_Some _ _ _) Hq) as [Hq0 _].
    rewrite array_get_insert by lia.
    destruct (decide (p = q)) as [-> | Hne]; [congruence | done].
  - intros index Hi. rewrite (f_space _ _ _ _ Hfault).
    destruct (decide _) as [Hin | Hout]; [| done].
    unfold FRAME_SIZE, PAGE_SIZE in *. lia.
  - apply (f_store _ _ _ _ Hfault).
Qed.

Lemma iteration_extends (seen : list Z) (st st' : State) (va : VirtualAddress)
    (pa : PhysicalAddress) :
  consistent seen st -> iteration seen st va st' pa -> extends st st'.
Proof.
  intros Hc [(_ & _ & _ & Hr) | (_ & Hget & Hframe & st1 & Hfault & Hr)].
  - by eapply reported_extends.
  - rewrite Hframe in Hfault.
    eapply extends_trans; [by eapply faulted_extends | by eapply reported_extends].
Qed.

(** The iteration that processes address number [k] of a run over valid
    addresses. *)
Lemma translation_spec (store : list byte) (raws : list Z) (k : nat) (raw : Z) :
  Forall valid_address raws -> raws !! k = Some raw ->
  exists st st' pa,
    state_after store raws k = Some st /\
    consistent (page_of <$> take k raws) st /\
    translation store raws k = Some (st', pa) /\
    state_after store raws (S k) = Some st' /\
    consistent (page_of <$> take (S k) raws) st' /\
    iteration (page_of <$> take k raws) st (new_address raw) st' pa.
Proof.
  intros Hvalid Hraw.
  pose proof (lookup_lt_Some _ _ _ Hraw) as Hk.
  destruct (state_after_consistent store raws k Hvalid) as (st & Hst & Hc); [lia |].
  assert (Hwf : wf_address (new_address raw)).
  { apply new_address_wf. eapply Forall_lookup_1; eauto. }
  destruct (translate_spec (Z.of_nat (length raws)) _ st _ Hc Hwf)
    as (st' & pa & Htr & Hc' & Hit).
  { rewrite length_fmap, length_take. lia. }
  assert (Htrans : translation store raws k = Some (st', pa)).
  { unfold translation. rewrite Hst. simpl. rewrite Hraw. simpl. done. }
  exists st, st', pa. split_and!; try done.
  - rewrite (state_after_S _ _ _ raw), Htrans by done. done.
  - rewrite (take_S_r _ _ raw) by done. by rewrite fmap_app.
Qed.

Lemma state_after_extends (store : list byte) (raws : list Z) (i k : nat)
    (st_i st_k : State) :
  Forall valid_address raws -> (i <= k <= length raws)%nat ->
  state_after store raws i = Some st_i ->
  state_after store raws k = Some st_k ->
  extends st_i st_k.
Proof.
  intros Hvalid Hik Hi. revert st_k. induction k as [| k IH]; intros st_k Hk.
  - assert (i = 0%nat) as -> by lia. rewrite Hi in Hk. inversion Hk.
    apply extends_refl.
  - destruct (decide (i = S k)) as [-> | Hne].
    { rewrite Hi in Hk. inversion Hk. apply extends_refl. }
    destruct (lookup_lt_is_Some_2 raws k) as [raw Hraw]; [lia |].
    destruct (translation_spec store raws k raw Hvalid Hraw)
      as (st & st' & pa & Hst & Hc & _ & Hst' & _ & Hit).
    rewrite Hst' in Hk. inversion Hk; subst st'.
    eapply extends_trans; [apply IH; [lia | done] |].
    by eapply iteration_extends.
Qed.

Lemma run_state_after (store : list byte) (raws : list Z) :
  run store raws
  = st ← state_after store raws (length raws);
    Some {| st_memory := st_memory st;
            st_table := st_table st;
            st_store := st_store st;
            st_buffer := st_buffer st;
            st_output :=
              st_output st
                ++ summary (fault_count (st_table st)) (Z.of_nat (length raws)) |}.
Proof.
  unfold run, map_addresses, state_after, address_count, virtual_memory_of, boot.
  cbn [addresses]. rewrite length_fmap.
  rewrite (take_ge (new_address <$> raws)) by (rewrite length_fmap; lia).
  done.
Qed.

(** A run over valid addresses ends and leaves a consistent state. *)
Lemma run_defined (store : list byte) (raws : list Z) :
  Forall valid_address raws ->
  exists st_loop st,
    state_after store raws (length raws) = Some st_loop /\
    consistent (page_of <$> raws) st_loop /\
    run store raws = Some st /\
    st_table st = st_table st_loop /\
    st_memory st = st_memory st_loop /\
    st_output st
    = st_output st_loop
        ++ summary (fault_count (st_table st_loop)) (Z.of_nat (length raws)).
Proof.
  intros Hvalid.
  destruct (state_after_consistent store raws (length raws) Hvalid)
    as (st & Hst & Hc); [lia |].
  rewrite take_ge in Hc by lia.
  eexists st, _. rewrite run_state_after, Hst. simpl.
  split_and!; done.
Qed.

Lemma address_split (raw : Z) : page_of raw * PAGE_SIZE + offset_of raw = raw.
Proof.
  unfold page_of, offset_of, new_address, PAGE_SIZE, PAGE_NUMBER_OFFSET_BITS,
    PAGE_OFFSET_MASK. simpl.
  rewrite Z.shiftr_div_pow2 by lia.
  change 255 with (Z.ones 8). rewrite Z.land_ones by lia.
  change (2 ^ 8) with 256. pose proof (Z.div_mod raw 256). lia.
Qed.

Lemma physical_raw_add (frame offset : Z) :
  0 <= offset < PAGE_SIZE ->
  physical_raw frame offset = frame * PAGE_SIZE + offset.
Proof.
  intros Ho. unfold physical_raw, FRAME_NUMBER_OFFSET_BITS, PAGE_SIZE in *.
  rewrite Z.shiftl_mul_pow2 by lia. change (2 ^ 8) with 256.
  assert (Hland : Z.land (frame * 256) offset = 0).
  { apply Z.bits_inj'. intros n Hn. rewrite Z.land_spec, Z.bits_0.
    destruct (Z.lt_ge_cases n 8) as [Hlt | Hge].
    - change 256 with (2 ^ 8). by rewrite Z.mul_pow2_bits_low by lia.
    - rewrite (Z.bits_above_log2 offset n); [apply andb_false_r | lia |].
      destruct (decide (offset = 0)) as [-> | Hne]; [simpl; lia |].
      apply Z.log2_lt_pow2; [lia |].
      apply Z.lt_le_trans with (2 ^ 8); [simpl; lia |].
      apply Z.pow_le_mono_r; lia. }
  rewrite <- Z.lxor_lor by done. symmetry. by apply Z.add_nocarry_lxor.
Qed.

Lemma iteration_entry (seen : list Z) (st st' : State) (va : VirtualAddress)
    (pa : PhysicalAddress) :
  consistent seen st -> wf_address va -> iteration seen st va st' pa ->
  array_get (pt_map (st_table st')) (page_number va) = Some (frame_number pa) /\
  frame_number pa <> UNMAPPED.
Proof.
  intros Hc [Hp _] [(_ & Hget & Hf & Hr) | (_ & Hget & Hframe & st1 & Hfault & Hr)].
  - by rewrite (r_table _ _ _ _ _ Hr).
  - rewrite (r_table _ _ _ _ _ Hr), (f_map _ _ _ _ Hfault).
    pose proof (c_length _ _ Hc) as Hlen.
    pose proof (consistent_faults_le _ _ Hc) as [Hfc _].
    rewrite array_get_insert
      by (rewrite ?Hlen; unfold PAGE_TABLE_SIZE in *; lia).
    rewrite decide_True by done. split; [done |]. unfold UNMAPPED. lia.
Qed.

Lemma iteration_hit (seen : list Z) (st st' : State) (va : VirtualAddress)
    (pa : PhysicalAddress) :
  iteration seen st va st' pa -> page_number va ∈ seen ->
  array_get (pt_map (st_table st)) (page_number va) = Some (frame_number pa) /\
  frame_number pa <> UNMAPPED /\
  reported st va (frame_number pa) st' pa.
Proof. intros [(_ & ? & ? & ?) | (Hout & _)] Hin; [done | contradiction]. Qed.

Lemma iteration_fault (seen : list Z) (st st' : State) (va : VirtualAddress)
    (pa : PhysicalAddress) :
  iteration seen st va st' pa -> page_number va ∉ seen ->
  array_get (pt_map (st_table st)) (page_number va) = Some UNMAPPED /\
  frame_number pa = fault_count (st_table st) /\
  fault_count (st_table st') = fault_count (st_table st) + 1 /\
  exists st1,
    faulted st (page_number va) st1 (frame_number pa) /\
    reported st1 va (frame_number pa) st' pa.
Proof.
  intros [(Hin & _) | (_ & Hget & Hframe & st1 & Hfault & Hr)] Hout; [contradiction |].
  split_and!; [done | done | | by exists st1].
  by rewrite (r_table _ _ _ _ _ Hr), (f_faults _ _ _ _ Hfault).
Qed.

(** An earlier address of the same page puts the page among the pages
    seen. *)
Lemma page_seen_before (raws : list Z) (i j : nat) (a : Z) :
  (i < j)%nat -> raws !! i = Some a -> page_of a ∈ page_of <$> take j raws.
Proof.
  intros Hij Ha. apply list_elem_of_fmap_2, list_elem_of_lookup.
  exists i. by rewrite lookup_take_lt.
Qed.

(** ** The claims *)

(** C2. Decoding a raw address below 65536 and encoding the result with the
    frame number set to the page number gives the raw address back. *)
Theorem decode_encode_roundtrip (raw : Z) :
  0 <= raw < PAGE_TABLE_SIZE * PAGE_SIZE ->
  physical_raw (page_number (new_address raw)) (page_offset (new_address raw)) = raw.
Proof.
  intros _. unfold physical_raw, new_address; simpl.
  change PAGE_OFFSET_MASK with (Z.ones 8).
  unfold FRAME_NUMBER_OFFSET_BITS, PAGE_NUMBER_OFFSET_BITS.
  rewrite Z.land_ones by lia.
  rewrite Z.shiftr_div_pow2, Z.shiftl_mul_pow2 by lia.
  apply Z.bits_inj'. intros n Hn.
  rewrite Z.lor_spec.
  destruct (Z.lt_ge_cases n 8) as [Hlt | Hge].
  - rewrite Z.mul_pow2_bits_low by lia. simpl.
    rewrite Z.mod_pow2_bits_low by lia. reflexivity.
  - rewrite Z.mod_pow2_bits_high by lia. rewrite orb_false_r.
    rewrite Z.mul_pow2_bits by lia.
    rewrite Z.div_pow2_bits by lia. f_equal. lia.
Qed.

Lemma decode_encode_roundtrip_witness :
  physical_raw (page_number (new_address 16916)) (page_offset (new_address 16916)) = 16916.
Proof. apply (decode_encode_roundtrip 16916). unfold PAGE_TABLE_SIZE, PAGE_SIZE. lia. Defined.

(** C1. When a page number occurs at two addresses of a run, the later
    address does not count as a fault: it finds the page mapped, leaves
    [fault_count] as it is and is translated with the frame of the earlier
    address.  The first reference to the page is the one that adds to
    [fault_count], and the entry of the page holds the same frame in every
    later state of the run. *)
Theorem one_fault_per_page (store : list byte) (raws : list Z) (i j : nat) (a b : Z) :
  Forall valid_address raws ->
  (i < j)%nat -> raws !! i = Some a -> raws !! j = Some b ->
  page_of a = page_of b ->
  exists st_i st_i' pa_i st_j st_j' pa_j,
    state_after store raws i = Some st_i /\
    translation store raws i = Some (st_i', pa_i) /\
    state_after store raws j = Some st_j /\
    translation store raws j = Some (st_j', pa_j) /\
    (* the later reference is a hit *)
    array_get (pt_map (st_table st_j)) (page_of b) = Some (frame_number pa_j) /\
    frame_number pa_j <> UNMAPPED /\
    fault_count (st_table st_j') = fault_count (st_table st_j) /\
    frame_number pa_j = frame_number pa_i /\
    (* the first reference is the fault *)
    ((page_of a ∉ page_of <$> take i raws) ->
     fault_count (st_table st_i') = fault_count (st_table st_i) + 1) /\
    (* the entry stays *)
    (forall k st_k, (i < k <= length raws)%nat ->
       state_after store raws k = Some st_k ->
       array_get (pt_map (st_table st_k)) (page_of a) = Some (frame_number pa_i)).
Proof.
  intros Hvalid Hij Ha Hb Hpage.
  destruct (translation_spec store raws i a Hvalid Ha)
    as (st_i & st_i' & pa_i & Hst_i & Hc_i & Htr_i & Hst_i' & Hc_i' & Hit_i).
  destruct (translation_spec store raws j b Hvalid Hb)
    as (st_j & st_j' & pa_j & Hst_j & Hc_j & Htr_j & Hst_j' & Hc_j' & Hit_j).
  assert (Hwf_a : wf_address (new_address a)).
  { apply new_address_wf. eapply Forall_lookup_1; eauto. }
  destruct (iteration_entry _ _ _ _ _ Hc_i Hwf_a Hit_i) as [Hentry Hmapped].
  assert (Hstays : forall k st_k, (i < k <= length raws)%nat ->
            state_after store raws k = Some st_k ->
            array_get (pt_map (st_table st_k)) (page_of a) = Some (frame_number pa_i)).
  { intros k st_k Hk Hst_k.
    assert (Hext : extends st_i' st_k)
      by (apply (state_after_extends store raws (S i) k); [done | lia | done | done]).
    by apply (e_entries _ _ Hext). }
  assert (Hseen : page_number (new_address b) ∈ page_of <$> take j raws).
  { fold (page_of b). rewrite <- Hpage. by eapply page_seen_before. }
  destruct (iteration_hit _ _ _ _ _ Hit_j Hseen) as (Hget_j & Hf_j & Hr_j).
  pose proof (lookup_lt_Some _ _ _ Hb) as Hj.
  pose proof (Hstays j st_j ltac:(lia) Hst_j) as Hentry_j.
  fold (page_of b) in Hget_j. rewrite Hpage in Hentry_j.
  exists st_i, st_i', pa_i, st_j, st_j', pa_j. split_and!; try done.
  - by rewrite (r_table _ _ _ _ _ Hr_j).
  - congruence.
  - intros Hfirst. by destruct (iteration_fault _ _ _ _ _ Hit_i Hfirst) as (_ & _ & ? & _).
Qed.

Lemma one_fault_per_page_witness :
  exists st_i st_i' pa_i st_j st_j' pa_j,
    state_after [] [1280; 7; 1300] 0 = Some st_i /\
    translation [] [1280; 7; 1300] 0 = Some (st_i', pa_i) /\
    state_after [] [1280; 7; 1300] 2 = Some st_j /\
    translation [] [1280; 7; 1300] 2 = Some (st_j', pa_j) /\
    array_get (pt_map (st_table st_j)) (page_of 1300) = Some (frame_number pa_j) /\
    frame_number pa_j <> UNMAPPED /\
    fault_count (st_table st_j') = fault_count (st_table st_j) /\
    frame_number pa_j = frame_number pa_i /\
    ((page_of 1280 ∉ page_of <$> take 0 [1280; 7; 1300]) ->
     fault_count (st_table st_i') = fault_count (st_table st_i) + 1) /\
    (forall k st_k, (0 < k <= length [1280; 7; 1300]%Z)%nat ->
       state_after [] [1280; 7; 1300] k = Some st_k ->
       array_get (pt_map (st_table st_k)) (page_of 1280) = Some (frame_number pa_i)).
Proof.
  apply (one_fault_per_page [] [1280; 7; 1300] 0 2 1280 1300).
  - repeat constructor; unfold PAGE_TABLE_SIZE, PAGE_SIZE; lia.
  - lia.
  - reflexivity.
  - reflexivity.
  - reflexivity.
Defined.

Lemma first_occurrence (l : list Z) (p : Z) :
  p ∈ l -> exists i, l !! i = Some p /\ p ∉ take i l.
Proof.
  induction l as [| x l IH]; intros Hin; [by apply elem_of_nil in Hin |].
  destruct (decide (x = p)) as [-> | Hne].
  - exists 0%nat. split; [done | apply not_elem_of_nil].
  - apply elem_of_cons in Hin as [-> | Hin]; [done |].
    destruct (IH Hin) as (i & Hi & Hfirst).
    exists (S i). split; [done |]. simpl.
    intros [-> | ?]%elem_of_cons; done.
Qed.

Lemma state_after_store (store : list byte) (raws : list Z) (k : nat) (st : State) :
  Forall valid_address raws -> (k <= length raws)%nat ->
  state_after store raws k = Some st -> content (st_store st) = store.
Proof.
  intros Hvalid Hk Hst.
  by rewrite (e_store _ _ (state_after_extends store raws 0 k (boot store) st
                             Hvalid ltac:(lia) eq_refl Hst)).
Qed.

(** C3. An address that finds its page mapped is reported with the byte
    that the read buffer held at its offset when the page was fetched, at
    the first reference to the page; that byte is the one the backing store
    has at this offset of the page, when the store reaches that far. *)
Theorem hit_byte_fidelity (store : list byte) (raws : list Z) (j : nat) (b f : Z) :
  Forall valid_address raws ->
  raws !! j = Some b ->
  entry_at store raws j (page_of b) = Some f -> f <> UNMAPPED ->
  exists i a st_i st_j st_j' pa_j,
    (i < j)%nat /\ raws !! i = Some a /\ page_of a = page_of b /\
    (page_of a ∉ page_of <$> take i raws) /\
    state_after store raws i = Some st_i /\
    state_after store raws j = Some st_j /\
    translation store raws j = Some (st_j', pa_j) /\
    fault_count (st_table st_j') = fault_count (st_table st_j) /\
    frame_number pa_j = f /\
    value pa_j
    = (read_page (st_buffer st_i) (st_store st_i) (page_of b)).1 !! offset_of b /\
    st_output st_j'
    = st_output st_j ++ [Translation b (pa_address pa_j) (value pa_j)] /\
    (forall byte,
       store !! Z.to_nat (page_of b * PAGE_SIZE + offset_of b) = Some byte ->
       value pa_j = Some (schar_of_byte byte)).
Proof.
  intros Hvalid Hb Hentry Hf.
  destruct (translation_spec store raws j b Hvalid Hb)
    as (st_j & st_j' & pa_j & Hst_j & Hc_j & Htr_j & Hst_j' & Hc_j' & Hit_j).
  unfold entry_at in Hentry. rewrite Hst_j in Hentry. simpl in Hentry.
  assert (Hwf_b : wf_address (new_address b)).
  { apply new_address_wf. eapply Forall_lookup_1; eauto. }
  destruct Hwf_b as [Hp_b Ho_b]. fold (page_of b) in Hp_b. fold (offset_of b) in Ho_b.
  assert (Hseen : page_of b ∈ page_of <$> take j raws).
  { destruct (decide (page_of b ∈ page_of <$> take j raws)) as [| Hout]; [done |].
    apply (c_mapped _ _ Hc_j _ Hp_b) in Hout. congruence. }
  destruct (first_occurrence _ _ Hseen) as (i & Hi & Hfirst).
  pose proof (lookup_lt_Some _ _ _ Hi) as Hij.
  rewrite length_fmap, length_take in Hij.
  rewrite list_lookup_fmap, lookup_take_lt in Hi by lia.
  destruct (raws !! i) as [a |] eqn:Ha; [| done].
  simpl in Hi. injection Hi as Hpage.
  rewrite <- fmap_take, take_take, Nat.min_l in Hfirst by lia.
  destruct (translation_spec store raws i a Hvalid Ha)
    as (st_i & st_i' & pa_i & Hst_i & Hc_i & Htr_i & Hst_i' & Hc_i' & Hit_i).
  rewrite <- Hpage in Hfirst.
  destruct (iteration_fault _ _ _ _ _ Hit_i Hfirst)
    as (_ & Hframe_i & Hfaults_i & st1 & Hfault & Hr_i).
  change (page_number (new_address a)) with (page_of a) in *.
  destruct (iteration_hit _ _ _ _ _ Hit_j Hseen) as (Hget_j & _ & Hr_j).
  change (page_number (new_address b)) with (page_of b) in *.
  assert (Hsame : frame_number pa_j = f) by congruence.
  pose proof (lookup_lt_Some _ _ _ Hb) as Hj.
  assert (Hext : extends st_i' st_j)
    by (apply (state_after_extends store raws (S i) j); [done | lia | done | done]).
  assert (Hwf_a : wf_address (new_address a)).
  { apply new_address_wf. eapply Forall_lookup_1; eauto. }
  destruct (iteration_entry _ _ _ _ _ Hc_i Hwf_a Hit_i) as [Hentry_i Hmapped_i].
  change (page_number (new_address a)) with (page_of a) in *.
  pose proof (e_entries _ _ Hext _ _ Hentry_i Hmapped_i) as Hentry_j.
  rewrite Hpage in Hentry_j.
  assert (Hframes : frame_number pa_j = frame_number pa_i) by congruence.
  pose proof (consistent_faults_le _ _ Hc_i) as [Hfc_i _].
  assert (Hvalue : value pa_j
            = (read_page (st_buffer st_i) (st_store st_i) (page_of b)).1
                !! offset_of b).
  { rewrite (r_value _ _ _ _ _ Hr_j).
    change (page_offset (new_address b)) with (offset_of b).
    rewrite (e_space _ _ Hext)
      by (rewrite Hfaults_i, Hframes, Hframe_i; unfold PAGE_SIZE in *; lia).
    rewrite (r_space _ _ _ _ _ Hr_i), (f_space _ _ _ _ Hfault).
    rewrite decide_True
      by (rewrite Hframes; unfold FRAME_SIZE, PAGE_SIZE in *; lia).
    rewrite (f_buffer _ _ _ _ Hfault), Hpage, Hframes. f_equal.
    unfold FRAME_SIZE, PAGE_SIZE. lia. }
  exists i, a, st_i, st_j, st_j', pa_j. split_and!; try done.
  - lia.
  - by rewrite (r_table _ _ _ _ _ Hr_j).
  - apply (r_output _ _ _ _ _ Hr_j).
  - intros byte Hbyte. rewrite Hvalue, read_page_lookup by (done || lia).
    rewrite (state_after_store store raws i st_i Hvalid ltac:(lia) Hst_i).
    by rewrite Hbyte.
Qed.

Lemma hit_byte_fidelity_witness :
  exists i a st_i st_j st_j' pa_j,
    (i < 2)%nat /\ [1280; 7; 1300] !! i = Some a /\ page_of a = page_of 1300 /\
    (page_of a ∉ page_of <$> take i [1280; 7; 1300]) /\
    state_after [] [1280; 7; 1300] i = Some st_i /\
    state_after [] [1280; 7; 1300] 2 = Some st_j /\
    translation [] [1280; 7; 1300] 2 = Some (st_j', pa_j) /\
    fault_count (st_table st_j') = fault_count (st_table st_j) /\
    frame_number pa_j = 0 /\
    value pa_j
    = (read_page (st_buffer st_i) (st_store st_i) (page_of 1300)).1 !! offset_of 1300 /\
    st_output st_j'
    = st_output st_j ++ [Translation 1300 (pa_address pa_j) (value pa_j)] /\
    (forall byte,
       [] !! Z.to_nat (page_of 1300 * PAGE_SIZE + offset_of 1300) = Some byte ->
       value pa_j = Some (schar_of_byte byte)).
Proof.
  apply (hit_byte_fidelity [] [1280; 7; 1300] 2 1300 0).
  - repeat constructor; unfold PAGE_TABLE_SIZE, PAGE_SIZE; lia.
  - reflexivity.
  - vm_compute. reflexivity.
  - unfold UNMAPPED. lia.
Defined.

(** ** Frame allocation *)

Lemma allocations_spec (count : Z) (vas : list VirtualAddress) (seen : list Z)
    (st : State) :
  consistent seen st -> Forall wf_address vas ->
  Z.of_nat (length seen) + Z.of_nat (length vas) <= count ->
  exists st',
    map_loop count st vas = Some st' /\
    consistent (seen ++ (page_number <$> vas)) st' /\
    fault_count (st_table st) <= fault_count (st_table st') /\
    allocations count st vas
    = seqZ (fault_count (st_table st))
        (fault_count (st_table st') - fault_count (st_table st)).
Proof.
  revert seen st. induction vas as [| va rest IH]; intros seen st Hc Hwf Hcount.
  - exists st. simpl. rewrite app_nil_r, Z.sub_diag. split_and!; [done | done | lia | done].
  - apply Forall_cons in Hwf as [Hva Hrest]. cbn [length] in Hcount.
    destruct (translate_spec count seen st va Hc Hva) as (st1 & pa & Htr & Hc1 & Hit);
      [lia |].
    destruct (IH _ st1 Hc1 Hrest) as (st' & Hloop & Hc' & Hle & Hall).
    { rewrite length_app. simpl. lia. }
    exists st'. cbn [map_loop allocations]. rewrite Htr. simpl.
    rewrite <- app_assoc in Hc'. rewrite Hall.
    destruct (decide (page_number va ∈ seen)) as [Hin | Hout].
    + destruct (iteration_hit _ _ _ _ _ Hit Hin) as (Hget & Hf & Hr).
      rewrite Hget. rewrite decide_False by congruence.
      rewrite (r_table _ _ _ _ _ Hr) in *. split_and!; done.
    + destruct (iteration_fault _ _ _ _ _ Hit Hout) as (Hget & Hframe & Hfaults & _).
      rewrite Hget. rewrite decide_True by done.
      split_and!; [done | done | lia |].
      rewrite Hframe, Hfaults. simpl.
      rewrite (seqZ_cons (fault_count (st_table st))) by lia.
      f_equal. f_equal; lia.
Qed.

Lemma run_allocations_spec (store : list byte) (raws : list Z) :
  Forall valid_address raws ->
  exists st,
    run store raws = Some st /\
    0 <= fault_count (st_table st) <= PAGE_TABLE_SIZE /\
    fault_count (st_table st) = Z.of_nat (distinct_pages raws) /\
    run_allocations store raws = seqZ 0 (fault_count (st_table st)).
Proof.
  intros Hvalid.
  destruct (allocations_spec (Z.of_nat (length raws)) (new_address <$> raws) []
              (boot store) (consistent_boot store))
    as (st_loop & Hloop & Hc & Hle & Hall).
  { apply Forall_fmap. eapply Forall_impl; [done |]. apply new_address_wf. }
  { rewrite length_fmap. simpl. lia. }
  destruct (run_defined store raws Hvalid) as (st_loop' & st & Hst & _ & Hrun & Htable & _).
  unfold state_after in Hst. rewrite take_ge in Hst by (rewrite length_fmap; lia).
  rewrite Hloop in Hst. injection Hst as <-.
  pose proof (consistent_faults_le _ _ Hc) as [Hbound _].
  exists st. rewrite Htable. split_and!; try done; try lia.
  - rewrite (c_faults _ _ Hc). unfold distinct_pages. simpl.
    by rewrite <- list_fmap_compose.
  - unfold run_allocations, address_count, virtual_memory_of. cbn [addresses].
    rewrite length_fmap, Hall. f_equal. cbn. lia.
Qed.

(** C4. The frames handed out to the successive faults of a run are
    0, 1, 2, ...: fault number [k] (from zero) receives frame [k]. *)
Theorem frames_in_fault_order (store : list byte) (raws : list Z) :
  Forall valid_address raws ->
  exists st,
    run store raws = Some st /\
    run_allocations store raws = seqZ 0 (fault_count (st_table st)) /\
    (forall k f, run_allocations store raws !! k = Some f -> f = Z.of_nat k) /\
    (forall k k' f f', (k < k')%nat ->
       run_allocations store raws !! k = Some f ->
       run_allocations store raws !! k' = Some f' -> f < f').
Proof.
  intros Hvalid.
  destruct (run_allocations_spec store raws Hvalid) as (st & Hrun & Hfc & _ & Hall).
  assert (Hnth : forall k f, run_allocations store raws !! k = Some f -> f = Z.of_nat k).
  { intros k f. rewrite Hall. intros [-> _]%lookup_seqZ. lia. }
  exists st. split_and!; try done.
  intros k k' f f' Hk Hf Hf'. apply Hnth in Hf, Hf'. lia.
Qed.

Lemma frames_in_fault_order_witness :
  exists st,
    run [] [1280; 7; 1300] = Some st /\
    run_allocations [] [1280; 7; 1300] = seqZ 0 (fault_count (st_table st)) /\
    (forall k f, run_allocations [] [1280; 7; 1300] !! k = Some f -> f = Z.of_nat k) /\
    (forall k k' f f', (k < k')%nat ->
       run_allocations [] [1280; 7; 1300] !! k = Some f ->
       run_allocations [] [1280; 7; 1300] !! k' = Some f' -> f < f').
Proof.
  apply (frames_in_fault_order [] [1280; 7; 1300]).
  repeat constructor; unfold PAGE_TABLE_SIZE, PAGE_SIZE; lia.
Defined.

(** C7. At the end of a run the number of faults is at most the number of
    distinct page numbers of the addresses, which is at most the number of
    addresses. *)
Theorem fault_accounting (store : list byte) (raws : list Z) :
  Forall valid_address raws ->
  exists st,
    run store raws = Some st /\
    fault_count (st_table st) <= Z.of_nat (distinct_pages raws) /\
    Z.of_nat (distinct_pages raws) <= address_count (virtual_memory_of raws).
Proof.
  intros Hvalid.
  destruct (run_allocations_spec store raws Hvalid) as (st & Hrun & _ & Hfc & _).
  exists st. split_and!; [done | lia |].
  unfold distinct_pages, address_count, virtual_memory_of. cbn [addresses].
  pose proof (size_list_to_set_le (page_of <$> raws)) as Hle.
  rewrite !length_fmap in *. lia.
Qed.

Lemma fault_accounting_witness :
  exists st,
    run [] [1280; 7; 1300] = Some st /\
    fault_count (st_table st) <= Z.of_nat (distinct_pages [1280; 7; 1300]) /\
    Z.of_nat (distinct_pages [1280; 7; 1300])
    <= address_count (virtual_memory_of [1280; 7; 1300]).
Proof.
  apply (fault_accounting [] [1280; 7; 1300]).
  repeat constructor; unfold PAGE_TABLE_SIZE, PAGE_SIZE; lia.
Defined.

Lemma allocate_many_lookup (n : nat) (pm : PhysicalMemory) (k : nat) (f : Z) :
  0 <= next_available_frame_index pm < UCHAR_MODULUS ->
  allocate_many n pm !! k = Some f ->
  f = (next_available_frame_index pm + Z.of_nat k) mod UCHAR_MODULUS.
Proof.
  revert pm k. induction n as [| n IH]; intros pm k Hnext Hk; [done |].
  destruct k as [| k]; simpl in Hk.
  - injection Hk as <-. rewrite Z.add_0_r. symmetry. by apply Z.mod_small.
  - apply IH in Hk; fields.
    + rewrite Hk. rewrite Z.add_mod_idemp_l by (by unfold UCHAR_MODULUS).
      f_equal. lia.
    + apply Z.mod_pos_bound. by unfold UCHAR_MODULUS.
Qed.

(** The request that follows 256 allocations is served with frame 0, a
    frame of the physical memory that was handed out before. *)
Lemma allocation_after_exhaustion_in_range :
  ~ (forall k f, (256 <= k)%nat ->
       allocate_many 257 create_physical_memory !! k = Some f ->
       ~ (0 <= f < PAGE_TABLE_SIZE)).
Proof.
  intros Hclaim. apply (Hclaim 256%nat 0).
  - lia.
  - vm_compute. reflexivity.
  - unfold PAGE_TABLE_SIZE. lia.
Qed.

(** C5, as the code has it.  The allocator hands out the value of an
    8-bit counter: request number [k] (from zero) is served with frame
    [k mod 256], which always is a frame of the physical memory.  In a run
    over valid addresses at most 256 frames are requested, and no frame is
    handed out twice. *)
Theorem allocator_stays_in_range (store : list byte) (raws : list Z)
    (n k : nat) (f : Z) :
  Forall valid_address raws ->
  allocate_many n create_physical_memory !! k = Some f ->
  f = Z.of_nat k mod UCHAR_MODULUS /\
  0 <= f < PAGE_TABLE_SIZE /\
  NoDup (run_allocations store raws) /\
  (length (run_allocations store raws) <= Z.to_nat PAGE_TABLE_SIZE)%nat.
Proof.
  intros Hvalid Hk.
  apply allocate_many_lookup in Hk; [| by vm_compute].
  change (next_available_frame_index create_physical_memory) with 0 in Hk.
  rewrite Z.add_0_l in Hk.
  destruct (run_allocations_spec store raws Hvalid) as (st & _ & Hfc & _ & Hall).
  split_and!.
  - done.
  - rewrite Hk. pose proof (Z.mod_pos_bound (Z.of_nat k) UCHAR_MODULUS).
    unfold UCHAR_MODULUS, PAGE_TABLE_SIZE in *. lia.
  - rewrite Hk. pose proof (Z.mod_pos_bound (Z.of_nat k) UCHAR_MODULUS).
    unfold UCHAR_MODULUS, PAGE_TABLE_SIZE in *. lia.
  - rewrite Hall. apply NoDup_seqZ.
  - rewrite Hall, length_seqZ. lia.
Qed.

Lemma allocator_stays_in_range_witness :
  0 = Z.of_nat 256 mod UCHAR_MODULUS /\
  0 <= 0 < PAGE_TABLE_SIZE /\
  NoDup (run_allocations [] [1280; 7; 1300]) /\
  (length (run_allocations [] [1280; 7; 1300]%Z) <= Z.to_nat PAGE_TABLE_SIZE)%nat.
Proof.
  apply (allocator_stays_in_range [] [1280; 7; 1300] 257 256 0).
  - repeat constructor; unfold PAGE_TABLE_SIZE, PAGE_SIZE; lia.
  - vm_compute. reflexivity.
Defined.

(** ** The empty input *)

Lemma run_empty (store : list byte) :
  st_output <$> run store [] = Some [PageFaults 0; PageFaultRate S754_nan] /\
  fault_count ∘ st_table <$> run store [] = Some 0.
Proof. split; reflexivity. Qed.

(** On an empty input the fault rate that is written is not a number. *)
Lemma empty_input_rate_is_not_a_number :
  ~ (exists st rate,
       run [] [] = Some st /\
       records (st_output st) = [] /\
       reported_faults (st_output st) = Some 0 /\
       reported_rate (st_output st) = Some rate /\
       is_number rate = true).
Proof.
  intros (st & rate & Hrun & _ & _ & Hrate & Hnumber).
  pose proof (run_empty []) as [Hout _]. rewrite Hrun in Hout.
  simpl in Hout. injection Hout as Hout. rewrite Hout in Hrate.
  simpl in Hrate. injection Hrate as <-. discriminate.
Qed.

(** C6, as the code has it.  On an empty input the run writes no
    translation record and reports zero faults; the rate it reports is the
    binary32 quotient of zero by zero, which is not a number: the division
    is made with a zero divisor. *)
Theorem empty_input_report (atoi : list byte -> Z) (store : list byte) :
  address_count (create_virtual_memory atoi []) = 0 /\
  exists out,
    main atoi [] store = Some out /\
    records out = [] /\
    reported_faults out = Some 0 /\
    reported_rate out = Some (float_div (float_of_int 0) (float_of_int 0)) /\
    float_of_int 0 = S754_zero false /\
    float_div (float_of_int 0) (float_of_int 0) = S754_nan.
Proof.
  split; [reflexivity |].
  exists [PageFaults 0; PageFaultRate S754_nan]. split_and!; reflexivity.
Qed.

(** ** The scenario of the address 16916 *)

(** C8. The address 16916 is offset 20 of page 66.  Where it is the first
    reference to page 66 it faults and receives the frame the allocator has
    next, which is frame 0 when no fault came before; the physical address
    written is that frame times 256 plus 20, and the value written is byte 20
    of page 66 of the backing store. *)
Theorem scenario_16916 (store : list byte) (raws : list Z) (k : nat) (byte : byte) :
  Forall valid_address raws ->
  raws !! k = Some 16916 ->
  (66 ∉ page_of <$> take k raws) ->
  store !! Z.to_nat (66 * PAGE_SIZE + 20) = Some byte ->
  page_of 16916 = 66 /\ offset_of 16916 = 20 /\
  exists st st' pa,
    state_after store raws k = Some st /\
    translation store raws k = Some (st', pa) /\
    array_get (pt_map (st_table st)) 66 = Some UNMAPPED /\
    fault_count (st_table st') = fault_count (st_table st) + 1 /\
    frame_number pa = next_available_frame_index (st_memory st) /\
    (fault_count (st_table st) = 0 -> frame_number pa = 0) /\
    pa_address pa = frame_number pa * 256 + 20 /\
    value pa = Some (schar_of_byte byte) /\
    st_output st'
    = st_output st
        ++ [Translation 16916 (frame_number pa * 256 + 20) (Some (schar_of_byte byte))].
Proof.
  intros Hvalid Hk Hfirst Hbyte.
  split; [reflexivity |]. split; [reflexivity |].
  destruct (translation_spec store raws k 16916 Hvalid Hk)
    as (st & st' & pa & Hst & Hc & Htr & Hst' & Hc' & Hit).
  destruct (iteration_fault _ _ _ _ _ Hit Hfirst)
    as (Hget & Hframe & Hfaults & st1 & Hfault & Hr).
  change (page_number (new_address 16916)) with 66 in *.
  change (page_offset (new_address 16916)) with 20 in *.
  pose proof (consistent_faults_le _ _ Hc) as [Hfc _].
  pose proof (consistent_faults_le _ _ Hc') as [Hfc' _].
  pose proof (lookup_lt_Some _ _ _ Hk) as Hlen.
  assert (Hnext : next_available_frame_index (st_memory st) = fault_count (st_table st)).
  { rewrite (c_next _ _ Hc). apply Z.mod_small.
    unfold UCHAR_MODULUS, PAGE_TABLE_SIZE in *. lia. }
  assert (Haddress : pa_address pa = frame_number pa * 256 + 20).
  { rewrite (r_address _ _ _ _ _ Hr).
    change (page_offset (new_address 16916)) with 20.
    rewrite physical_raw_add by (unfold PAGE_SIZE; lia). done. }
  assert (Hvalue : value pa = Some (schar_of_byte byte)).
  { rewrite (r_value _ _ _ _ _ Hr).
    change (page_offset (new_address 16916)) with 20.
    rewrite (f_space _ _ _ _ Hfault).
    rewrite decide_True by (unfold FRAME_SIZE, PAGE_SIZE; lia).
    rewrite (f_buffer _ _ _ _ Hfault).
    replace (20 + frame_number pa * PAGE_SIZE - frame_number pa * FRAME_SIZE)
      with 20 by (unfold FRAME_SIZE, PAGE_SIZE; lia).
    rewrite read_page_lookup by (unfold PAGE_SIZE; lia).
    rewrite (state_after_store store raws k st Hvalid ltac:(lia) Hst).
    by rewrite Hbyte. }
  exists st, st', pa. split_and!; try done.
  - congruence.
  - intros Hzero. congruence.
  - rewrite (r_output _ _ _ _ _ Hr), (f_output _ _ _ _ Hfault).
    by rewrite Haddress, Hvalue.
Qed.

Lemma scenario_16916_witness :
  page_of 16916 = 66 /\ offset_of 16916 = 20 /\
  exists st st' pa,
    state_after (replicate (Z.to_nat 16917) "*"%byte) [16916] 0 = Some st /\
    translation (replicate (Z.to_nat 16917) "*"%byte) [16916] 0 = Some (st', pa) /\
    array_get (pt_map (st_table st)) 66 = Some UNMAPPED /\
    fault_count (st_table st') = fault_count (st_table st) + 1 /\
    frame_number pa = next_available_frame_index (st_memory st) /\
    (fault_count (st_table st) = 0 -> frame_number pa = 0) /\
    pa_address pa = frame_number pa * 256 + 20 /\
    value pa = Some (schar_of_byte "*"%byte) /\
    st_output st'
    = st_output st
        ++ [Translation 16916 (frame_number pa * 256 + 20)
              (Some (schar_of_byte "*"%byte))].
Proof.
  apply (scenario_16916 (replicate (Z.to_nat 16917) "*"%byte) [16916] 0 "*"%byte).
  - repeat constructor; unfold PAGE_TABLE_SIZE, PAGE_SIZE; lia.
  - reflexivity.
  - apply not_elem_of_nil.
  - vm_compute. reflexivity.
Defined.

(** ** Memory safety *)

(** C10. In a run over addresses below 65536 no access leaves a block: the
    run is defined, every translation uses a frame number and a frame offset
    below 256, so that the index of the byte it reads and the indices of the
    page it may have copied lie inside the physical memory, and the frame
    counter stays below 256. *)
Theorem physical_memory_accesses_in_range (store : list byte) (raws : list Z) :
  Forall valid_address raws ->
  (exists st, run store raws = Some st) /\
  (forall k, (k < length raws)%nat -> is_Some (translation store raws k)) /\
  (forall k st' pa, translation store raws k = Some (st', pa) ->
     0 <= frame_number pa < PAGE_TABLE_SIZE /\
     0 <= frame_offset pa < PAGE_SIZE /\
     0 <= frame_offset pa + frame_number pa * PAGE_SIZE < PHYSICAL_MEMORY_SIZE /\
     (forall i, 0 <= i < PAGE_SIZE ->
        0 <= frame_number pa * FRAME_SIZE + i < PHYSICAL_MEMORY_SIZE) /\
     0 <= next_available_frame_index (st_memory st') < UCHAR_MODULUS).
Proof.
  intros Hvalid. split_and!.
  - destruct (run_defined store raws Hvalid) as (_ & st & _ & _ & Hrun & _).
    by exists st.
  - intros k Hk.
    destruct (lookup_lt_is_Some_2 raws k Hk) as [raw Hraw].
    destruct (translation_spec store raws k raw Hvalid Hraw)
      as (_ & st' & pa & _ & _ & Htr & _).
    by rewrite Htr.
  - intros k st' pa Htr.
    assert (Hraw : is_Some (raws !! k)).
    { unfold translation in Htr.
      destruct (state_after store raws k); [| done]. simpl in Htr.
      by destruct (raws !! k). }
    destruct Hraw as [raw Hraw].
    destruct (translation_spec store raws k raw Hvalid Hraw)
      as (st & st2 & pa2 & Hst & Hc & Htr2 & Hst' & Hc' & Hit).
    rewrite Htr in Htr2. injection Htr2 as <- <-.
    pose proof (consistent_faults_le _ _ Hc) as [Hfc _].
    pose proof (consistent_faults_le _ _ Hc') as [Hfc' _].
    assert (Hframe : 0 <= frame_number pa < PAGE_TABLE_SIZE).
    { destruct (decide (page_number (new_address raw) ∈ page_of <$> take k raws))
        as [Hin | Hout].
      - destruct (iteration_hit _ _ _ _ _ Hit Hin) as (Hget & Hf & _).
        pose proof (c_frames _ _ Hc _ _ Hget Hf). lia.
      - destruct (iteration_fault _ _ _ _ _ Hit Hout) as (_ & Hframe & Hfaults & _).
        lia. }
    assert (Hoffset : 0 <= frame_offset pa < PAGE_SIZE).
    { assert (Hr : frame_offset pa = offset_of raw).
      { destruct Hit as [(_ & _ & _ & Hr) | (_ & _ & _ & st1 & _ & Hr)];
          apply (r_offset _ _ _ _ _ Hr). }
      rewrite Hr. apply offset_of_range. }
    split; [done |]. split; [done |]. split; [| split].
    + unfold PHYSICAL_MEMORY_SIZE, PAGE_TABLE_SIZE, PAGE_SIZE in *. lia.
    + intros i Hi. unfold PHYSICAL_MEMORY_SIZE, PAGE_TABLE_SIZE, PAGE_SIZE, FRAME_SIZE in *.
      lia.
    + rewrite (c_next _ _ Hc'). apply Z.mod_pos_bound. by unfold UCHAR_MODULUS.
Qed.

Lemma physical_memory_accesses_in_range_witness :
  (exists st, run [] [1280; 7; 1300] = Some st) /\
  (forall k, (k < length [1280; 7; 1300]%Z)%nat ->
     is_Some (translation [] [1280; 7; 1300] k)) /\
  (forall k st' pa, translation [] [1280; 7; 1300] k = Some (st', pa) ->
     0 <= frame_number pa < PAGE_TABLE_SIZE /\
     0 <= frame_offset pa < PAGE_SIZE /\
     0 <= frame_offset pa + frame_number pa * PAGE_SIZE < PHYSICAL_MEMORY_SIZE /\
     (forall i, 0 <= i < PAGE_SIZE ->
        0 <= frame_number pa * FRAME_SIZE + i < PHYSICAL_MEMORY_SIZE) /\
     0 <= next_available_frame_index (st_memory st') < UCHAR_MODULUS).
Proof.
  apply (physical_memory_accesses_in_range [] [1280; 7; 1300]).
  repeat constructor; unfold PAGE_TABLE_SIZE, PAGE_SIZE; lia.
Defined.

(** ** Reading the addresses *)

Lemma scan_no_newline (atoi : list byte -> Z) (tail line : list byte)
    (vas : list VirtualAddress) :
  x0a ∉ tail -> scan atoi tail line vas = vas.
Proof.
  revert line. induction tail as [| c tail IH]; intros line Hno; [done |].
  apply not_elem_of_cons in Hno as [Hc Htail].
  destruct c; try done; simpl; by apply IH.
Qed.

Lemma scan_app_no_newline (atoi : list byte -> Z) (input tail line : list byte)
    (vas : list VirtualAddress) :
  x0a ∉ tail -> scan atoi (input ++ tail) line vas = scan atoi input line vas.
Proof.
  intros Hno. revert line vas.
  induction input as [| c input IH]; intros line vas.
  - by apply scan_no_newline.
  - destruct c; simpl; by rewrite ?IH.
Qed.

(** C9. Characters that no newline follows make no address.  A text
    without a newline gives an empty virtual memory, and the output of the
    program has no translation record; put after any text, such characters
    change neither the virtual memory, nor its address count, nor the output
    of the program. *)
Theorem unterminated_line_dropped (atoi : list byte -> Z)
    (input tail store : list byte) :
  x0a ∉ tail ->
  addresses (create_virtual_memory atoi tail) = [] /\
  address_count (create_virtual_memory atoi tail) = 0 /\
  records <$> main atoi tail store = Some [] /\
  create_virtual_memory atoi (input ++ tail) = create_virtual_memory atoi input /\
  address_count (create_virtual_memory atoi (input ++ tail))
  = address_count (create_virtual_memory atoi input) /\
  main atoi (input ++ tail) store = main atoi input store.
Proof.
  intros Htail.
  assert (Hnone : create_virtual_memory atoi tail = create_virtual_memory atoi [])
    by (unfold create_virtual_memory; by rewrite scan_no_newline).
  assert (Hsame : create_virtual_memory atoi (input ++ tail)
                  = create_virtual_memory atoi input)
    by (unfold create_virtual_memory; by rewrite scan_app_no_newline).
  split_and!.
  - by rewrite Hnone.
  - by rewrite Hnone.
  - unfold main. rewrite Hnone. reflexivity.
  - done.
  - by rewrite Hsame.
  - unfold main. by rewrite Hsame.
Qed.

Lemma unterminated_line_dropped_witness :
  addresses (create_virtual_memory atoi_model [x35; x31; x32]) = [] /\
  address_count (create_virtual_memory atoi_model [x35; x31; x32]) = 0 /\
  records <$> main atoi_model [x35; x31; x32] [] = Some [] /\
  create_virtual_memory atoi_model ([x31; x36; x39; x31; x36; x0a] ++ [x35; x31; x32])
  = create_virtual_memory atoi_model [x31; x36; x39; x31; x36; x0a] /\
  address_count
    (create_virtual_memory atoi_model ([x31; x36; x39; x31; x36; x0a] ++ [x35; x31; x32]))
  = address_count (create_virtual_memory atoi_model [x31; x36; x39; x31; x36; x0a]) /\
  main atoi_model ([x31; x36; x39; x31; x36; x0a] ++ [x35; x31; x32]) []
  = main atoi_model [x31; x36; x39; x31; x36; x0a] [].
Proof.
  apply (unterminated_line_dropped atoi_model
           [x31; x36; x39; x31; x36; x0a] [x35; x31; x32] []).
  not_in_text.
Defined.

(** ** The output of a run *)

Lemma records_app (l1 l2 : list Line) : records (l1 ++ l2) = records l1 ++ records l2.
Proof.
  induction l1 as [| [v p b | n | r] l1 IH]; simpl; by rewrite ?IH.
Qed.

Lemma reported_faults_app (l1 l2 : list Line) :
  reported_faults (l1 ++ l2)
  = match reported_faults l1 with
    | Some n => Some n
    | None => reported_faults l2
    end.
Proof. induction l1 as [| [v p b | n | r] l1 IH]; simpl; done. Qed.

Lemma reported_rate_app (l1 l2 : list Line) :
  reported_rate (l1 ++ l2)
  = match reported_rate l1 with
    | Some r => Some r
    | None => reported_rate l2
    end.
Proof. induction l1 as [| [v p b | n | r] l1 IH]; simpl; done. Qed.

Lemma iteration_output (seen : list Z) (st st' : State) (va : VirtualAddress)
    (pa : PhysicalAddress) :
  iteration seen st va st' pa ->
  st_output st' = st_output st ++ [Translation (va_address va) (pa_address pa) (value pa)].
Proof.
  intros [(_ & _ & _ & Hr) | (_ & _ & _ & st1 & Hfault & Hr)].
  - apply (r_output _ _ _ _ _ Hr).
  - rewrite (r_output _ _ _ _ _ Hr). by rewrite (f_output _ _ _ _ Hfault).
Qed.

(** The loop writes one record for each address and nothing else. *)
Lemma state_after_output (store : list byte) (raws : list Z) (k : nat) (st : State) :
  Forall valid_address raws -> (k <= length raws)%nat ->
  state_after store raws k = Some st ->
  length (records (st_output st)) = k /\
  fst ∘ fst <$> records (st_output st) = take k raws /\
  reported_faults (st_output st) = None /\
  reported_rate (st_output st) = None.
Proof.
  intros Hvalid. revert st. induction k as [| k IH]; intros st Hk Hst.
  - injection Hst as <-. done.
  - destruct (lookup_lt_is_Some_2 raws k) as [raw Hraw]; [lia |].
    destruct (translation_spec store raws k raw Hvalid Hraw)
      as (st0 & st' & pa & Hst0 & _ & _ & Hst' & _ & Hit).
    rewrite Hst' in Hst. injection Hst as <-.
    destruct (IH st0 ltac:(lia) Hst0) as (Hlen & Hraws & Hfaults & Hrate).
    rewrite (iteration_output _ _ _ _ _ Hit).
    rewrite records_app, reported_faults_app, reported_rate_app, Hfaults, Hrate.
    rewrite length_app, fmap_app, Hlen, Hraws, (take_S_r _ _ raw) by done.
    simpl. split_and!; [lia | done | done | done].
Qed.

(** A run over valid addresses writes a record for each address, in the
    order of the input, then the number of faults and their rate. *)
Lemma run_output (store : list byte) (raws : list Z) :
  Forall valid_address raws ->
  exists st,
    run store raws = Some st /\
    fst ∘ fst <$> records (st_output st) = raws /\
    reported_faults (st_output st) = Some (fault_count (st_table st)) /\
    reported_rate (st_output st)
    = Some (float_div (float_of_int (fault_count (st_table st)))
              (float_of_int (Z.of_nat (length raws)))).
Proof.
  intros Hvalid.
  destruct (run_defined store raws Hvalid)
    as (st_loop & st & Hloop & _ & Hrun & Htable & _ & Hout).
  destruct (state_after_output store raws (length raws) st_loop Hvalid ltac:(lia) Hloop)
    as (_ & Hraws & Hfaults & Hrate).
  exists st. rewrite Hout, Htable.
  rewrite records_app, reported_faults_app, reported_rate_app, Hfaults, Hrate.
  rewrite fmap_app, Hraws, take_ge by lia. simpl.
  split_and!; [done | by rewrite app_nil_r | done | done].
Qed.

(** ** The runs that are defined *)

Lemma page_of_valid (raw : Z) :
  0 <= page_of raw < PAGE_TABLE_SIZE <-> valid_address raw.
Proof.
  unfold page_of, valid_address, new_address, PAGE_TABLE_SIZE, PAGE_SIZE,
    PAGE_NUMBER_OFFSET_BITS. simpl.
  rewrite Z.shiftr_div_pow2 by lia. change (2 ^ 8) with 256.
  pose proof (Z.div_mod raw 256 ltac:(lia)).
  pose proof (Z.mod_pos_bound raw 256 ltac:(lia)). lia.
Qed.

Lemma map_loop_defined_valid (count : Z) (raws : list Z) (seen : list Z)
    (st st' : State) :
  consistent seen st ->
  Z.of_nat (length seen) + Z.of_nat (length raws) <= count ->
  map_loop count st (new_address <$> raws) = Some st' ->
  Forall valid_address raws.
Proof.
  revert seen st. induction raws as [| raw raws IH]; intros seen st Hc Hcount Hloop.
  - constructor.
  - cbn [fmap list_fmap map_loop length] in *.
    destruct (decide (valid_address raw)) as [Hvalid | Hinvalid].
    + constructor; [done |].
      destruct (translate_spec count seen st (new_address raw) Hc
                  (new_address_wf raw Hvalid)) as (st1 & pa & Htr & Hc1 & _); [lia |].
      rewrite Htr in Hloop. simpl in Hloop.
      apply (IH _ st1 Hc1); [rewrite length_app; simpl; lia | done].
    + rewrite translate_out_of_range in Hloop; [done |].
      rewrite (c_length _ _ Hc). intros Hp. apply Hinvalid, page_of_valid.
      unfold page_of, PAGE_TABLE_SIZE in *. lia.
Qed.

(** X14. The runs that do not leave a block are the runs over valid
    addresses: an address that is negative or not below 65536 makes
    [map_addresses] read [page_table->map] outside of its 256 entries, and no
    other access of a run can leave its block. *)
Lemma run_defined_iff (store : list byte) (raws : list Z) :
  is_Some (run store raws) <-> Forall valid_address raws.
Proof.
  split.
  - intros [st Hrun]. unfold run, map_addresses in Hrun.
    destruct (map_loop _ _ _) as [st_loop |] eqn:Hloop; [| done].
    apply (map_loop_defined_valid (address_count (virtual_memory_of raws)) raws []
             (boot store) st_loop (consistent_boot store)); [| exact Hloop].
    unfold address_count, virtual_memory_of. cbn [addresses length].
    rewrite length_fmap. lia.
  - intros Hvalid.
    destruct (run_defined store raws Hvalid) as (_ & st & _ & _ & Hrun & _).
    by exists st.
Qed.

(** ** A sample run *)

Example run_sample :
  st_output <$> run (replicate (Z.to_nat 17000) "*"%byte) [16916; 3; 16917; 512]
  = Some [Translation 16916 20 (Some 42); Translation 3 259 (Some 42);
          Translation 16917 21 (Some 42); Translation 512 512 (Some 42);
          PageFaults 3; PageFaultRate (S754_finite false 12582912 (-24))].
Proof. vm_compute. reflexivity. Qed.

(** * Further properties of the code *)

(** ** [create_virtual_memory] *)

Lemma scan_stops_at_xff (atoi : list byte -> Z) (input rest line : list byte)
    (vas : list VirtualAddress) :
  scan atoi (input ++ xff :: rest) line vas = scan atoi input line vas.
Proof.
  revert line vas. induction input as [| c input IH]; intros line vas; [done |].
  destruct c; simpl; by rewrite ?IH.
Qed.

(** X2. With a signed plain [char], the byte 0xFF read into [buffer_char]
    compares equal to [EOF]: the text that follows such a byte is never
    read, whatever it holds. *)
Theorem byte_xff_ends_the_input (atoi : list byte -> Z) (input rest : list byte) :
  create_virtual_memory atoi (input ++ xff :: rest) = create_virtual_memory atoi input.
Proof. unfold create_virtual_memory. by rewrite scan_stops_at_xff. Qed.

Lemma scan_entries (atoi : list byte -> Z) (input line : list byte)
    (vas : list VirtualAddress) :
  Forall (λ va, va = new_address (va_address va)) vas ->
  Forall (λ va, va = new_address (va_address va)) (scan atoi input line vas).
Proof.
  revert line vas. induction input as [| c input IH]; intros line vas Hvas; [done |].
  destruct c; simpl; try done; try (by apply IH).
  apply IH. apply Forall_app. split; [done |]. by repeat constructor.
Qed.

(** X3. Every entry of the virtual memory splits its address into a page
    number and an offset below 256 that recompose to the address, whatever
    integer [atoi] returned for the line, a negative one included. *)
Theorem parsed_entries_recompose (atoi : list byte -> Z) (input : list byte) :
  Forall (λ va,
            page_number va * PAGE_SIZE + page_offset va = va_address va /\
            0 <= page_offset va < PAGE_SIZE /\
            page_number va = va_address va `div` PAGE_SIZE /\
            page_offset va = va_address va `mod` PAGE_SIZE)
    (addresses (create_virtual_memory atoi input)).
Proof.
  unfold create_virtual_memory. cbn [addresses].
  eapply Forall_impl; [apply (scan_entries atoi input [] []); constructor |].
  intros va ->. cbn [va_address page_number page_offset new_address].
  set (raw := va_address va).
  pose proof (address_split raw) as Hsplit.
  pose proof (offset_of_range raw) as Hrange.
  unfold page_of, offset_of, new_address in *. cbn [page_number page_offset] in *.
  split_and!; try done; try lia.
  - unfold PAGE_NUMBER_OFFSET_BITS, PAGE_SIZE. by rewrite Z.shiftr_div_pow2 by lia.
  - unfold PAGE_OFFSET_MASK, PAGE_SIZE. change 255 with (Z.ones 8).
    by rewrite Z.land_ones by lia.
Qed.

(** ** [map_addresses]: where a page goes and what is read from it *)

(** The iteration that first refers to a page loads it: the page is mapped
    to the frame numbered by the faults so far, and the frame holds the read
    buffer as the fetch left it. *)
Lemma loaded_page (store : list byte) (raws : list Z) (i : nat) (a : Z) :
  Forall valid_address raws -> raws !! i = Some a ->
  (page_of a ∉ page_of <$> take i raws) ->
  exists st_i st_i' pa_i,
    state_after store raws i = Some st_i /\
    state_after store raws (S i) = Some st_i' /\
    translation store raws i = Some (st_i', pa_i) /\
    frame_number pa_i = fault_count (st_table st_i) /\
    fault_count (st_table st_i) = Z.of_nat (distinct_pages (take i raws)) /\
    0 <= fault_count (st_table st_i) < PAGE_TABLE_SIZE /\
    fault_count (st_table st_i') = fault_count (st_table st_i) + 1 /\
    array_get (pt_map (st_table st_i')) (page_of a) = Some (fault_count (st_table st_i)) /\
    value pa_i
    = (read_page (st_buffer st_i) (st_store st_i) (page_of a)).1 !! offset_of a /\
    (forall o, 0 <= o < PAGE_SIZE ->
       space (st_memory st_i') !! (o + fault_count (st_table st_i) * PAGE_SIZE)
       = (read_page (st_buffer st_i) (st_store st_i) (page_of a)).1 !! o).
Proof.
  intros Hvalid Ha Hfirst.
  destruct (translation_spec store raws i a Hvalid Ha)
    as (st_i & st_i' & pa_i & Hst_i & Hc_i & Htr_i & Hst_i' & Hc_i' & Hit_i).
  destruct (iteration_fault _ _ _ _ _ Hit_i Hfirst)
    as (_ & Hframe & Hfaults & st1 & Hfault & Hr).
  assert (Hwf : wf_address (new_address a)).
  { apply new_address_wf. eapply Forall_lookup_1; eauto. }
  destruct (iteration_entry _ _ _ _ _ Hc_i Hwf Hit_i) as [Hentry _].
  change (page_number (new_address a)) with (page_of a) in *.
  pose proof (consistent_faults_le _ _ Hc_i) as [Hfc _].
  pose proof (consistent_faults_le _ _ Hc_i') as [Hfc' _].
  assert (Hspace : forall o, 0 <= o < PAGE_SIZE ->
            space (st_memory st_i') !! (o + fault_count (st_table st_i) * PAGE_SIZE)
            = (read_page (st_buffer st_i) (st_store st_i) (page_of a)).1 !! o).
  { intros o Ho. rewrite (r_space _ _ _ _ _ Hr), (f_space _ _ _ _ Hfault), Hframe.
    rewrite decide_True by (unfold FRAME_SIZE, PAGE_SIZE in *; lia).
    rewrite (f_buffer _ _ _ _ Hfault). f_equal.
    unfold FRAME_SIZE, PAGE_SIZE. lia. }
  exists st_i, st_i', pa_i. split_and!; try done; try lia.
  - by rewrite (c_faults _ _ Hc_i).
  - by rewrite <- Hframe.
  - rewrite (r_value _ _ _ _ _ Hr), <- (r_space _ _ _ _ _ Hr), Hframe.
    change (page_offset (new_address a)) with (offset_of a).
    apply Hspace, offset_of_range.
Qed.

(** The first reference to the page of an address. *)
Lemma first_reference (raws : list Z) (k : nat) (raw : Z) :
  raws !! k = Some raw ->
  exists i a,
    (i <= k)%nat /\ raws !! i = Some a /\ page_of a = page_of raw /\
    (page_of a ∉ page_of <$> take i raws).
Proof.
  intros Hraw.
  assert (Hin : page_of raw ∈ page_of <$> take (S k) raws)
    by (by apply (page_seen_before raws k (S k)); [lia |]).
  destruct (first_occurrence _ _ Hin) as (i & Hi & Hfirst).
  pose proof (lookup_lt_Some _ _ _ Hi) as Hlt.
  pose proof (lookup_lt_Some _ _ _ Hraw) as Hk.
  rewrite length_fmap, length_take in Hlt.
  rewrite list_lookup_fmap, lookup_take_lt in Hi by lia.
  destruct (raws !! i) as [a |] eqn:Ha; [| done].
  simpl in Hi. injection Hi as Hpage.
  rewrite <- fmap_take, take_take, Nat.min_l in Hfirst by lia.
  exists i, a. split_and!; [lia | done | done | by rewrite Hpage].
Qed.

Lemma first_reference_unique (raws : list Z) (i j : nat) (a b : Z) :
  raws !! i = Some a -> raws !! j = Some b -> page_of a = page_of b ->
  (page_of a ∉ page_of <$> take i raws) ->
  (page_of b ∉ page_of <$> take j raws) ->
  i = j.
Proof.
  intros Ha Hb Hpage Hfa Hfb.
  destruct (Nat.lt_trichotomy i j) as [Hlt | [Heq | Hgt]]; [| done |].
  - exfalso. apply Hfb. rewrite <- Hpage. by eapply page_seen_before.
  - exfalso. apply Hfa. rewrite Hpage. by eapply page_seen_before.
Qed.

(** Every translation uses the frame that the first reference to its page
    received, and reads what that reference fetched. *)
Lemma translation_formula (store : list byte) (raws : list Z) (k i : nat) (raw a : Z) :
  Forall valid_address raws -> raws !! k = Some raw ->
  (i <= k)%nat -> raws !! i = Some a -> page_of a = page_of raw ->
  (page_of a ∉ page_of <$> take i raws) ->
  exists st_i st' pa,
    state_after store raws i = Some st_i /\
    translation store raws k = Some (st', pa) /\
    frame_number pa = Z.of_nat (distinct_pages (take i raws)) /\
    0 <= frame_number pa < PAGE_TABLE_SIZE /\
    frame_offset pa = offset_of raw /\
    pa_address pa = frame_number pa * PAGE_SIZE + offset_of raw /\
    value pa
    = (read_page (st_buffer st_i) (st_store st_i) (page_of raw)).1 !! offset_of raw.
Proof.
  intros Hvalid Hraw Hik Ha Hpage Hfirst.
  destruct (loaded_page store raws i a Hvalid Ha Hfirst)
    as (st_i & st_i' & pa_i & Hst_i & Hst_i' & Htr_i & Hframe_i & Hrank & Hfc_i
        & Hfaults_i & Hentry_i & Hvalue_i & Hspace_i).
  destruct (translation_spec store raws k raw Hvalid Hraw)
    as (st_k & st' & pa & Hst_k & Hc_k & Htr_k & Hst_k' & Hc_k' & Hit_k).
  assert (Hshape : frame_offset pa = offset_of raw /\
                   pa_address pa = frame_number pa * PAGE_SIZE + offset_of raw).
  { assert (Hr : exists st0, reported st0 (new_address raw) (frame_number pa) st' pa).
    { destruct Hit_k as [(_ & _ & _ & Hr) | (_ & _ & _ & st1 & _ & Hr)]; eauto. }
    destruct Hr as [st0 Hr].
    rewrite (r_offset _ _ _ _ _ Hr), (r_address _ _ _ _ _ Hr).
    change (page_offset (new_address raw)) with (offset_of raw).
    split; [done |]. apply physical_raw_add, offset_of_range. }
  destruct Hshape as [Hoffset Haddress].
  exists st_i, st', pa.
  destruct (decide (i = k)) as [-> | Hne].
  - rewrite Hraw in Ha. injection Ha as <-.
    rewrite Htr_k in Htr_i. injection Htr_i as <- <-.
    rewrite Hframe_i, <- Hrank. split_and!; try done; lia.
  - assert (Hseen : page_number (new_address raw) ∈ page_of <$> take k raws).
    { change (page_number (new_address raw)) with (page_of raw).
      rewrite <- Hpage. apply (page_seen_before raws i k); [lia | done]. }
    destruct (iteration_hit _ _ _ _ _ Hit_k Hseen) as (Hget & Hf & Hr).
    change (page_number (new_address raw)) with (page_of raw) in *.
    pose proof (lookup_lt_Some _ _ _ Hraw) as Hk.
    assert (Hext : extends st_i' st_k)
      by (apply (state_after_extends store raws (S i) k); [done | lia | done | done]).
    assert (Hentry_k : array_get (pt_map (st_table st_k)) (page_of raw)
                       = Some (fault_count (st_table st_i))).
    { rewrite <- Hpage. apply (e_entries _ _ Hext); [done |]. unfold UNMAPPED. lia. }
    assert (Hframe : frame_number pa = fault_count (st_table st_i)) by congruence.
    rewrite Hframe, <- Hrank. split_and!; try done; try lia.
    rewrite (r_value _ _ _ _ _ Hr).
    change (page_offset (new_address raw)) with (offset_of raw).
    rewrite Hframe, (e_space _ _ Hext).
    + rewrite <- Hpage. apply Hspace_i, offset_of_range.
    + pose proof (offset_of_range raw). unfold PAGE_SIZE in *. lia.
Qed.

(** X5. The frame of a translation is the number of distinct pages
    referenced before the first reference to its page, and the physical
    address is that frame times 256 plus the offset of the logical
    address. *)
Theorem frame_is_rank_of_first_reference (store : list byte) (raws : list Z)
    (k i : nat) (raw a : Z) :
  Forall valid_address raws -> raws !! k = Some raw ->
  (i <= k)%nat -> raws !! i = Some a -> page_of a = page_of raw ->
  (page_of a ∉ page_of <$> take i raws) ->
  exists st' pa,
    translation store raws k = Some (st', pa) /\
    frame_number pa = Z.of_nat (distinct_pages (take i raws)) /\
    pa_address pa = Z.of_nat (distinct_pages (take i raws)) * PAGE_SIZE + offset_of raw.
Proof.
  intros Hvalid Hraw Hik Ha Hpage Hfirst.
  destruct (translation_formula store raws k i raw a Hvalid Hraw Hik Ha Hpage Hfirst)
    as (_ & st' & pa & _ & Htr & Hframe & _ & _ & Haddress & _).
  exists st', pa. split_and!; [done | done | by rewrite <- Hframe].
Qed.

Lemma frame_is_rank_of_first_reference_witness :
  exists st' pa,
    translation [] [1280; 7; 1300] 2 = Some (st', pa) /\
    frame_number pa = Z.of_nat (distinct_pages (take 0 [1280; 7; 1300])) /\
    pa_address pa
    = Z.of_nat (distinct_pages (take 0 [1280; 7; 1300])) * PAGE_SIZE + offset_of 1300.
Proof.
  apply (frame_is_rank_of_first_reference [] [1280; 7; 1300] 2 0 1300 1280).
  - repeat constructor; unfold PAGE_TABLE_SIZE, PAGE_SIZE; lia.
  - reflexivity.
  - lia.
  - reflexivity.
  - reflexivity.
  - apply not_elem_of_nil.
Defined.

(** X6. The physical address of a translation does not depend on the
    content of the backing store: two runs over the same addresses give the
    same frames, offsets and physical addresses. *)
Theorem physical_address_independent_of_store (store1 store2 : list byte)
    (raws : list Z) (k : nat) :
  Forall valid_address raws ->
  (λ r, (pa_address r.2, frame_number r.2, frame_offset r.2))
    <$> translation store1 raws k
  = (λ r, (pa_address r.2, frame_number r.2, frame_offset r.2))
      <$> translation store2 raws k.
Proof.
  intros Hvalid.
  destruct (raws !! k) as [raw |] eqn:Hraw.
  - destruct (first_reference raws k raw Hraw) as (i & a & Hik & Ha & Hpage & Hfirst).
    destruct (translation_formula store1 raws k i raw a Hvalid Hraw Hik Ha Hpage Hfirst)
      as (_ & st1 & pa1 & _ & Htr1 & Hframe1 & _ & Hoffset1 & Haddress1 & _).
    destruct (translation_formula store2 raws k i raw a Hvalid Hraw Hik Ha Hpage Hfirst)
      as (_ & st2 & pa2 & _ & Htr2 & Hframe2 & _ & Hoffset2 & Haddress2 & _).
    rewrite Htr1, Htr2. simpl. do 2 f_equal; congruence.
  - unfold translation.
    destruct (state_after store1 raws k), (state_after store2 raws k);
      simpl; by rewrite ?Hraw.
Qed.

Lemma physical_address_independent_of_store_witness :
  (λ r, (pa_address r.2, frame_number r.2, frame_offset r.2))
    <$> translation [] [1280; 7; 1300] 2
  = (λ r, (pa_address r.2, frame_number r.2, frame_offset r.2))
      <$> translation [x01; x02] [1280; 7; 1300] 2.
Proof.
  apply (physical_address_independent_of_store [] [x01; x02] [1280; 7; 1300] 2).
  repeat constructor; unfold PAGE_TABLE_SIZE, PAGE_SIZE; lia.
Defined.

(** X7. Whether it is a hit or a fault, a translation reports the byte
    that the backing store holds at the index of the logical address
    itself, read as a signed char, whenever the store has a byte there. *)
Theorem value_is_store_byte (store : list byte) (raws : list Z) (k : nat)
    (raw : Z) (byte : byte) :
  Forall valid_address raws -> raws !! k = Some raw ->
  store !! Z.to_nat raw = Some byte ->
  exists st' pa,
    translation store raws k = Some (st', pa) /\
    value pa = Some (schar_of_byte byte) /\
    last (st_output st')
    = Some (Translation raw (pa_address pa) (Some (schar_of_byte byte))).
Proof.
  intros Hvalid Hraw Hbyte.
  destruct (first_reference raws k raw Hraw) as (i & a & Hik & Ha & Hpage & Hfirst).
  destruct (translation_formula store raws k i raw a Hvalid Hraw Hik Ha Hpage Hfirst)
    as (st_i & st' & pa & Hst_i & Htr & _ & _ & _ & _ & Hvalue).
  pose proof (lookup_lt_Some _ _ _ Hraw) as Hk.
  assert (Hwf : wf_address (new_address raw)).
  { apply new_address_wf. eapply Forall_lookup_1; eauto. }
  destruct Hwf as [Hp _]. change (page_number (new_address raw)) with (page_of raw) in Hp.
  assert (Hread : value pa = Some (schar_of_byte byte)).
  { rewrite Hvalue, read_page_lookup by (lia || apply offset_of_range).
    rewrite (state_after_store store raws i st_i Hvalid ltac:(lia) Hst_i).
    by rewrite address_split, Hbyte. }
  exists st', pa. split_and!; [done | done |].
  destruct (translation_spec store raws k raw Hvalid Hraw)
    as (st & st2 & pa2 & _ & _ & Htr2 & _ & _ & Hit).
  rewrite Htr in Htr2. injection Htr2 as <- <-.
  rewrite (iteration_output _ _ _ _ _ Hit), last_snoc. simpl. by rewrite Hread.
Qed.

Lemma value_is_store_byte_witness :
  exists st' pa,
    translation [x01; x02; x83] [2; 7; 2] 2 = Some (st', pa) /\
    value pa = Some (schar_of_byte x83) /\
    last (st_output st')
    = Some (Translation 2 (pa_address pa) (Some (schar_of_byte x83))).
Proof.
  apply (value_is_store_byte [x01; x02; x83] [2; 7; 2] 2 2 x83).
  - repeat constructor; unfold PAGE_TABLE_SIZE, PAGE_SIZE; lia.
  - reflexivity.
  - reflexivity.
Defined.

Lemma buffer_fresh (store : list byte) (raws : list Z) (k : nat) (st : State) :
  Forall valid_address raws -> (k <= length raws)%nat ->
  state_after store raws k = Some st ->
  fault_count (st_table st) = 0 -> st_buffer st = ∅.
Proof.
  intros Hvalid. revert st. induction k as [| k IH]; intros st Hk Hst Hzero.
  - by injection Hst as <-.
  - destruct (lookup_lt_is_Some_2 raws k) as [raw Hraw]; [lia |].
    destruct (translation_spec store raws k raw Hvalid Hraw)
      as (st0 & st' & pa & Hst0 & Hc0 & _ & Hst' & _ & Hit).
    rewrite Hst' in Hst. injection Hst as <-.
    pose proof (consistent_faults_le _ _ Hc0) as [Hfc _].
    destruct (decide (page_number (new_address raw) ∈ page_of <$> take k raws))
      as [Hin | Hout].
    + destruct (iteration_hit _ _ _ _ _ Hit Hin) as (_ & _ & Hr).
      rewrite (r_buffer _ _ _ _ _ Hr). apply IH; [lia | done |].
      by rewrite <- (r_table _ _ _ _ _ Hr).
    + destruct (iteration_fault _ _ _ _ _ Hit Hout) as (_ & _ & Hfaults & _). lia.
Qed.

(** X8. The result of [fread] is not looked at: when the backing store has
    no byte for the address of a fault, the frame receives what the read
    buffer held before, and the value reported is that stale content; on the
    first fault of a run the buffer was never written and the value is
    indeterminate. *)
Theorem missing_byte_reads_stale_buffer (store : list byte) (raws : list Z)
    (k : nat) (raw : Z) :
  Forall valid_address raws -> raws !! k = Some raw ->
  (page_of raw ∉ page_of <$> take k raws) ->
  store !! Z.to_nat raw = None ->
  exists st st' pa,
    state_after store raws k = Some st /\
    translation store raws k = Some (st', pa) /\
    value pa = st_buffer st !! offset_of raw /\
    (fault_count (st_table st) = 0 -> value pa = None).
Proof.
  intros Hvalid Hraw Hfirst Hnone.
  destruct (translation_formula store raws k k raw raw Hvalid Hraw ltac:(lia) Hraw
              eq_refl Hfirst)
    as (st & st' & pa & Hst & Htr & _ & _ & _ & _ & Hvalue).
  pose proof (lookup_lt_Some _ _ _ Hraw) as Hk.
  assert (Hwf : wf_address (new_address raw)).
  { apply new_address_wf. eapply Forall_lookup_1; eauto. }
  destruct Hwf as [Hp _]. change (page_number (new_address raw)) with (page_of raw) in Hp.
  assert (Hstale : value pa = st_buffer st !! offset_of raw).
  { rewrite Hvalue, read_page_lookup by (lia || apply offset_of_range).
    rewrite (state_after_store store raws k st Hvalid ltac:(lia) Hst).
    by rewrite address_split, Hnone. }
  exists st, st', pa. split_and!; try done.
  intros Hzero. rewrite Hstale.
  by rewrite (buffer_fresh store raws k st Hvalid ltac:(lia) Hst Hzero).
Qed.

Lemma missing_byte_reads_stale_buffer_witness :
  exists st st' pa,
    state_after [x01; x02; x83] [2; 300] 1 = Some st /\
    translation [x01; x02; x83] [2; 300] 1 = Some (st', pa) /\
    value pa = st_buffer st !! offset_of 300 /\
    (fault_count (st_table st) = 0 -> value pa = None).
Proof.
  apply (missing_byte_reads_stale_buffer [x01; x02; x83] [2; 300] 1 300).
  - repeat constructor; unfold PAGE_TABLE_SIZE, PAGE_SIZE; lia.
  - reflexivity.
  - vm_compute. not_in_text.
  - reflexivity.
Defined.

(** ** [map_addresses]: the page table and the physical memory *)

(** A mapped entry was written by the first reference to its page, and its
    frame still holds what that reference fetched. *)
Lemma mapped_entry_formula (store : list byte) (raws : list Z) (k : nat)
    (st : State) (p f : Z) :
  Forall valid_address raws -> (k <= length raws)%nat ->
  state_after store raws k = Some st ->
  array_get (pt_map (st_table st)) p = Some f -> f <> UNMAPPED ->
  exists i a st_i st_i',
    (i < k)%nat /\ raws !! i = Some a /\ page_of a = p /\
    (page_of a ∉ page_of <$> take i raws) /\
    state_after store raws i = Some st_i /\
    state_after store raws (S i) = Some st_i' /\
    f = fault_count (st_table st_i) /\
    0 <= f < PAGE_TABLE_SIZE /\
    fault_count (st_table st_i') = f + 1 /\
    (forall o, 0 <= o < PAGE_SIZE ->
       space (st_memory st) !! (o + f * PAGE_SIZE)
       = (read_page (st_buffer st_i) (st_store st_i) p).1 !! o).
Proof.
  intros Hvalid Hk Hst Hget Hf.
  destruct (state_after_consistent store raws k Hvalid Hk) as (st0 & Hst0 & Hc).
  rewrite Hst in Hst0. injection Hst0 as <-.
  assert (Hp : 0 <= p < PAGE_TABLE_SIZE).
  { pose proof (proj1 (array_get_Some _ _ _) Hget) as [Hp0 Hl].
    apply lookup_lt_Some in Hl. rewrite (c_length _ _ Hc) in Hl. lia. }
  assert (Hseen : p ∈ page_of <$> take k raws).
  { destruct (decide (p ∈ page_of <$> take k raws)) as [| Hout]; [done |].
    apply (c_mapped _ _ Hc _ Hp) in Hout. congruence. }
  destruct (first_occurrence _ _ Hseen) as (i & Hi & Hfirst).
  pose proof (lookup_lt_Some _ _ _ Hi) as Hlt.
  rewrite length_fmap, length_take in Hlt.
  rewrite list_lookup_fmap, lookup_take_lt in Hi by lia.
  destruct (raws !! i) as [a |] eqn:Ha; [| done].
  simpl in Hi. injection Hi as Hpage.
  rewrite <- fmap_take, take_take, Nat.min_l in Hfirst by lia.
  rewrite <- Hpage in Hfirst.
  destruct (loaded_page store raws i a Hvalid Ha Hfirst)
    as (st_i & st_i' & pa_i & Hst_i & Hst_i' & _ & _ & _ & Hfc_i
        & Hfaults_i & Hentry_i & _ & Hspace_i).
  assert (Hext : extends st_i' st)
    by (apply (state_after_extends store raws (S i) k); [done | lia | done | done]).
  assert (Hsame : f = fault_count (st_table st_i)).
  { rewrite Hpage in Hentry_i.
    pose proof (e_entries _ _ Hext _ _ Hentry_i ltac:(unfold UNMAPPED; lia)).
    congruence. }
  exists i, a, st_i, st_i'. rewrite Hsame. split_and!; try done; try lia.
  intros o Ho. rewrite (e_space _ _ Hext) by (unfold PAGE_SIZE in *; lia).
  rewrite <- Hpage. by apply Hspace_i.
Qed.

(** X10. The page table never maps two pages to one frame: in every state
    of a run, two entries that hold the same frame are the entry of the
    same page. *)
Theorem page_table_is_injective (store : list byte) (raws : list Z) (k : nat)
    (p q f : Z) :
  Forall valid_address raws -> (k <= length raws)%nat ->
  entry_at store raws k p = Some f ->
  entry_at store raws k q = Some f ->
  f <> UNMAPPED ->
  p = q.
Proof.
  intros Hvalid Hk Hp Hq Hf. unfold entry_at in *.
  destruct (state_after store raws k) as [st |] eqn:Hst; [| done].
  simpl in Hp, Hq.
  destruct (mapped_entry_formula store raws k st p f Hvalid Hk Hst Hp Hf)
    as (i & a & st_i & st_i' & Hi & Ha & Hpa & _ & Hst_i & Hst_i' & Hfi & _ & Hfi' & _).
  destruct (mapped_entry_formula store raws k st q f Hvalid Hk Hst Hq Hf)
    as (j & b & st_j & st_j' & Hj & Hb & Hpb & _ & Hst_j & Hst_j' & Hfj & _ & Hfj' & _).
  destruct (Nat.lt_trichotomy i j) as [Hlt | [-> | Hgt]].
  - pose proof (e_faults _ _ (state_after_extends store raws (S i) j st_i' st_j
                                Hvalid ltac:(lia) Hst_i' Hst_j)). lia.
  - congruence.
  - pose proof (e_faults _ _ (state_after_extends store raws (S j) i st_j' st_i
                                Hvalid ltac:(lia) Hst_j' Hst_i)). lia.
Qed.

Lemma page_table_is_injective_witness : 5 = 5.
Proof.
  apply (page_table_is_injective [] [1280; 7; 1300] 3 5 5 0).
  - repeat constructor; unfold PAGE_TABLE_SIZE, PAGE_SIZE; lia.
  - simpl. lia.
  - vm_compute. reflexivity.
  - vm_compute. reflexivity.
  - unfold UNMAPPED. lia.
Defined.

(** X11. At the end of a run the page of every address is resident: its
    entry holds a frame below 256, and the frame holds, at every offset that
    the backing store has for the page, the byte of the store. *)
Theorem referenced_pages_are_resident (store : list byte) (raws : list Z)
    (raw o : Z) (byte : byte) :
  Forall valid_address raws -> raw ∈ raws ->
  0 <= o < PAGE_SIZE ->
  store !! Z.to_nat (page_of raw * PAGE_SIZE + o) = Some byte ->
  exists st f,
    run store raws = Some st /\
    array_get (pt_map (st_table st)) (page_of raw) = Some f /\
    0 <= f < PAGE_TABLE_SIZE /\
    space (st_memory st) !! (f * FRAME_SIZE + o) = Some (schar_of_byte byte).
Proof.
  intros Hvalid Hin Ho Hbyte.
  apply list_elem_of_lookup in Hin as [k Hraw].
  destruct (first_reference raws k raw Hraw) as (i & a & Hik & Ha & Hpage & Hfirst).
  pose proof (lookup_lt_Some _ _ _ Hraw) as Hk.
  destruct (loaded_page store raws i a Hvalid Ha Hfirst)
    as (st_i & st_i' & pa_i & Hst_i & Hst_i' & _ & _ & _ & Hfc_i
        & Hfaults_i & Hentry_i & _ & Hspace_i).
  destruct (run_defined store raws Hvalid)
    as (st_loop & st & Hloop & _ & Hrun & Htable & Hmemory & _).
  assert (Hext : extends st_i' st_loop)
    by (apply (state_after_extends store raws (S i) (length raws));
        [done | lia | done | done]).
  assert (Hwf : wf_address (new_address raw)).
  { apply new_address_wf. eapply Forall_lookup_1; eauto. }
  destruct Hwf as [Hp _]. change (page_number (new_address raw)) with (page_of raw) in Hp.
  exists st, (fault_count (st_table st_i)). rewrite Htable, Hmemory.
  split_and!; try done; try lia.
  - rewrite <- Hpage. apply (e_entries _ _ Hext); [done |]. unfold UNMAPPED. lia.
  - replace (fault_count (st_table st_i) * FRAME_SIZE + o)
      with (o + fault_count (st_table st_i) * PAGE_SIZE)
      by (unfold FRAME_SIZE, PAGE_SIZE; lia).
    rewrite (e_space _ _ Hext) by (unfold PAGE_SIZE in *; lia).
    rewrite Hspace_i, Hpage, read_page_lookup by (done || lia).
    rewrite (state_after_store store raws i st_i Hvalid ltac:(lia) Hst_i).
    by rewrite Hbyte.
Qed.

Lemma referenced_pages_are_resident_witness :
  exists st f,
    run [x01; x02; x83] [2; 7; 300] = Some st /\
    array_get (pt_map (st_table st)) (page_of 7) = Some f /\
    0 <= f < PAGE_TABLE_SIZE /\
    space (st_memory st) !! (f * FRAME_SIZE + 1) = Some (schar_of_byte x02).
Proof.
  apply (referenced_pages_are_resident [x01; x02; x83] [2; 7; 300] 7 1 x02).
  - repeat constructor; unfold PAGE_TABLE_SIZE, PAGE_SIZE; lia.
  - apply elem_of_cons. right. apply elem_of_cons. by left.
  - unfold PAGE_SIZE. lia.
  - reflexivity.
Defined.

(** ** [map_addresses]: the list of physical addresses *)

Lemma report_addresses (count : Z) (st st' : State) (va : VirtualAddress) (f : Z)
    (pa : PhysicalAddress) :
  report count st va f = Some (st', pa) ->
  frame_number pa = f /\
  pm_addresses (st_memory st') = <[f := pa]> (pm_addresses (st_memory st)).
Proof.
  unfold report.
  destruct (in_block PHYSICAL_MEMORY_SIZE _); [| done].
  destruct (in_block count f); [| done].
  rewrite lookup_insert_eq. simpl. by intros [= <- <-].
Qed.

Lemma page_fault_addresses (st st1 : State) (p f : Z) :
  page_fault st p = Some (st1, f) ->
  pm_addresses (st_memory st1) = pm_addresses (st_memory st).
Proof.
  unfold page_fault, allocate_frame.
  destruct (read_page _ _ _) as [buffer store].
  destruct (copy_page _ _ _ _ _); [| done]. simpl.
  destruct (array_set _ _ _); [| done]. simpl. by intros [= <- _].
Qed.

Lemma translate_addresses (count : Z) (st st' : State) (va : VirtualAddress)
    (pa : PhysicalAddress) :
  translate count st va = Some (st', pa) ->
  pm_addresses (st_memory st')
  = <[frame_number pa := pa]> (pm_addresses (st_memory st)).
Proof.
  unfold translate.
  destruct (array_get _ _) as [looked_up |]; [| done]. simpl.
  destruct (decide (looked_up = UNMAPPED)).
  - destruct (page_fault st (page_number va)) as [[st1 f] |] eqn:Hfault; [| done].
    simpl. intros [Hf Hpm]%report_addresses.
    by rewrite Hpm, Hf, (page_fault_addresses _ _ _ _ Hfault).
  - simpl. intros [Hf Hpm]%report_addresses. by rewrite Hpm, Hf.
Qed.

(** The slots of [physical_memory->addresses] that were written are those
    of the frames handed out. *)
Lemma report_slots (store : list byte) (raws : list Z) (k : nat) (st : State) :
  Forall valid_address raws -> (k <= length raws)%nat ->
  state_after store raws k = Some st ->
  forall f, is_Some (pm_addresses (st_memory st) !! f)
            <-> 0 <= f < fault_count (st_table st).
Proof.
  intros Hvalid. revert st. induction k as [| k IH]; intros st Hk Hst f.
  - injection Hst as <-. cbn. rewrite lookup_empty. split; [by intros [? ?] | lia].
  - destruct (lookup_lt_is_Some_2 raws k) as [raw Hraw]; [lia |].
    destruct (translation_spec store raws k raw Hvalid Hraw)
      as (st0 & st' & pa & Hst0 & Hc0 & Htr & Hst' & _ & Hit).
    rewrite Hst' in Hst. injection Hst as <-.
    assert (Hpm : pm_addresses (st_memory st')
                  = <[frame_number pa := pa]> (pm_addresses (st_memory st0))).
    { unfold translation in Htr. rewrite Hst0 in Htr. simpl in Htr.
      rewrite Hraw in Htr. simpl in Htr. by apply translate_addresses in Htr. }
    rewrite Hpm, lookup_insert_is_Some, (IH st0 ltac:(lia) Hst0 f).
    pose proof (consistent_faults_le _ _ Hc0) as [Hfc _].
    destruct (decide (page_number (new_address raw) ∈ page_of <$> take k raws))
      as [Hin | Hout].
    + destruct (iteration_hit _ _ _ _ _ Hit Hin) as (Hget & Hf & Hr).
      pose proof (c_frames _ _ Hc0 _ _ Hget Hf).
      rewrite (r_table _ _ _ _ _ Hr). lia.
    + destruct (iteration_fault _ _ _ _ _ Hit Hout) as (_ & Hframe & Hfaults & _).
      rewrite Hfaults, Hframe. lia.
Qed.

(** X9. A hit reads neither the backing store nor the read buffer and
    writes nothing to the page table and to the bytes of the physical
    memory.  What it changes is the list of physical addresses, where the
    slot of its frame, already written, receives the new record, the address
    count of the physical memory, which grows by one, and the output, which
    receives the line of the translation. *)
Theorem hit_changes_nothing (store : list byte) (raws : list Z) (k : nat) (raw : Z) :
  Forall valid_address raws -> raws !! k = Some raw ->
  page_of raw ∈ page_of <$> take k raws ->
  exists st st' pa,
    state_after store raws k = Some st /\
    translation store raws k = Some (st', pa) /\
    st_table st' = st_table st /\
    space (st_memory st') = space (st_memory st) /\
    next_available_frame_index (st_memory st')
    = next_available_frame_index (st_memory st) /\
    st_buffer st' = st_buffer st /\
    st_store st' = st_store st /\
    is_Some (pm_addresses (st_memory st) !! frame_number pa) /\
    pm_addresses (st_memory st')
    = <[frame_number pa := pa]> (pm_addresses (st_memory st)) /\
    pm_address_count (st_memory st') = pm_address_count (st_memory st) + 1 /\
    st_output st' = st_output st ++ [Translation raw (pa_address pa) (value pa)].
Proof.
  intros Hvalid Hraw Hseen.
  pose proof (lookup_lt_Some _ _ _ Hraw) as Hk.
  destruct (translation_spec store raws k raw Hvalid Hraw)
    as (st & st' & pa & Hst & Hc & Htr & _ & _ & Hit).
  destruct (iteration_hit _ _ _ _ _ Hit Hseen) as (Hget & Hf & Hr).
  assert (Hpm : pm_addresses (st_memory st')
                = <[frame_number pa := pa]> (pm_addresses (st_memory st))).
  { unfold translation in Htr. rewrite Hst in Htr. simpl in Htr.
    rewrite Hraw in Htr. simpl in Htr. by apply translate_addresses in Htr. }
  exists st, st', pa. split_and!; try done; try apply Hr.
  apply (report_slots store raws k st Hvalid ltac:(lia) Hst).
  pose proof (c_frames _ _ Hc _ _ Hget Hf). lia.
Qed.

Lemma hit_changes_nothing_witness :
  exists st st' pa,
    state_after [] [1280; 7; 1300] 2 = Some st /\
    translation [] [1280; 7; 1300] 2 = Some (st', pa) /\
    st_table st' = st_table st /\
    space (st_memory st') = space (st_memory st) /\
    next_available_frame_index (st_memory st')
    = next_available_frame_index (st_memory st) /\
    st_buffer st' = st_buffer st /\
    st_store st' = st_store st /\
    is_Some (pm_addresses (st_memory st) !! frame_number pa) /\
    pm_addresses (st_memory st')
    = <[frame_number pa := pa]> (pm_addresses (st_memory st)) /\
    pm_address_count (st_memory st') = pm_address_count (st_memory st) + 1 /\
    st_output st' = st_output st ++ [Translation 1300 (pa_address pa) (value pa)].
Proof.
  apply (hit_changes_nothing [] [1280; 7; 1300] 2 1300).
  - repeat constructor; unfold PAGE_TABLE_SIZE, PAGE_SIZE; lia.
  - reflexivity.
  - exact (page_seen_before [1280; 7; 1300] 0 2 1280 ltac:(lia) eq_refl).
Defined.

(** X12. The list of physical addresses is filled by frame number, not by
    translation: a translation stores its record in the slot of its frame,
    which is below the number of addresses processed so far, so that the
    slots in use are those of the frames handed out and a hit overwrites the
    record of the earlier translation of its page. *)
Theorem report_array_is_indexed_by_frame (store : list byte) (raws : list Z)
    (k : nat) (raw : Z) :
  Forall valid_address raws -> raws !! k = Some raw ->
  exists st st' pa,
    state_after store raws k = Some st /\
    translation store raws k = Some (st', pa) /\
    pm_addresses (st_memory st')
    = <[frame_number pa := pa]> (pm_addresses (st_memory st)) /\
    0 <= frame_number pa <= Z.of_nat k /\
    pm_address_count (st_memory st') = Z.of_nat (S k) /\
    (forall f, is_Some (pm_addresses (st_memory st') !! f)
               <-> 0 <= f < fault_count (st_table st')) /\
    (page_of raw ∈ page_of <$> take k raws ->
     is_Some (pm_addresses (st_memory st) !! frame_number pa)).
Proof.
  intros Hvalid Hraw.
  pose proof (lookup_lt_Some _ _ _ Hraw) as Hk.
  destruct (translation_spec store raws k raw Hvalid Hraw)
    as (st & st' & pa & Hst & Hc & Htr & Hst' & Hc' & Hit).
  assert (Hpm : pm_addresses (st_memory st')
                = <[frame_number pa := pa]> (pm_addresses (st_memory st))).
  { unfold translation in Htr. rewrite Hst in Htr. simpl in Htr.
    rewrite Hraw in Htr. simpl in Htr. by apply translate_addresses in Htr. }
  pose proof (consistent_faults_le _ _ Hc) as [Hfc Hle].
  rewrite length_fmap, length_take, Nat.min_l in Hle by lia.
  assert (Hframe : 0 <= frame_number pa <= fault_count (st_table st)).
  { destruct (decide (page_number (new_address raw) ∈ page_of <$> take k raws))
      as [Hin | Hout].
    - destruct (iteration_hit _ _ _ _ _ Hit Hin) as (Hget & Hf & _).
      pose proof (c_frames _ _ Hc _ _ Hget Hf). lia.
    - destruct (iteration_fault _ _ _ _ _ Hit Hout) as (_ & Hframe & _). lia. }
  exists st, st', pa. split_and!; try done; try lia.
  - rewrite (c_count _ _ Hc'), length_fmap, length_take. lia.
  - apply (report_slots store raws (S k) st' Hvalid ltac:(lia) Hst').
  - intros Hin. apply (report_slots store raws k st Hvalid ltac:(lia) Hst).
    destruct (iteration_hit _ _ _ _ _ Hit Hin) as (Hget & Hf & _).
    pose proof (c_frames _ _ Hc _ _ Hget Hf). lia.
Qed.

Lemma report_array_is_indexed_by_frame_witness :
  exists st st' pa,
    state_after [] [1280; 7; 1300] 2 = Some st /\
    translation [] [1280; 7; 1300] 2 = Some (st', pa) /\
    pm_addresses (st_memory st')
    = <[frame_number pa := pa]> (pm_addresses (st_memory st)) /\
    0 <= frame_number pa <= Z.of_nat 2 /\
    pm_address_count (st_memory st') = Z.of_nat 3 /\
    (forall f, is_Some (pm_addresses (st_memory st') !! f)
               <-> 0 <= f < fault_count (st_table st')) /\
    (page_of 1300 ∈ page_of <$> take 2 [1280; 7; 1300] ->
     is_Some (pm_addresses (st_memory st) !! frame_number pa)).
Proof.
  apply (report_array_is_indexed_by_frame [] [1280; 7; 1300] 2 1300).
  - repeat constructor; unfold PAGE_TABLE_SIZE, PAGE_SIZE; lia.
  - reflexivity.
Defined.

(** ** [map_addresses]: the bytes *)

Lemma schar_of_byte_range (b : byte) : -128 <= schar_of_byte b < 128.
Proof.
  unfold schar_of_byte. pose proof (Byte.to_N_bounded b) as Hb.
  destruct (Z.of_N (Byte.to_N b) <? 128) eqn:Hlt.
  - apply Z.ltb_lt in Hlt. lia.
  - apply Z.ltb_ge in Hlt. lia.
Qed.

Lemma store_bytes_range (bytes : list byte) (buffer : gmap Z Z) (i j v : Z) :
  (forall j v, buffer !! j = Some v -> -128 <= v < 128) ->
  store_bytes buffer i bytes !! j = Some v -> -128 <= v < 128.
Proof.
  intros Hbuffer. rewrite store_bytes_lookup.
  destruct (decide _); [| apply Hbuffer].
  destruct (bytes !! _) as [b |]; [| done]. simpl. intros [= <-].
  apply schar_of_byte_range.
Qed.

Lemma bytes_in_range (store : list byte) (raws : list Z) (k : nat) (st : State) :
  Forall valid_address raws -> (k <= length raws)%nat ->
  state_after store raws k = Some st ->
  (forall j v, space (st_memory st) !! j = Some v -> -128 <= v < 128) /\
  (forall j v, st_buffer st !! j = Some v -> -128 <= v < 128).
Proof.
  intros Hvalid. revert st. induction k as [| k IH]; intros st Hk Hst.
  - injection Hst as <-. cbn. split; intros j v; by rewrite lookup_empty.
  - destruct (lookup_lt_is_Some_2 raws k) as [raw Hraw]; [lia |].
    destruct (translation_spec store raws k raw Hvalid Hraw)
      as (st0 & st' & pa & Hst0 & _ & _ & Hst' & _ & Hit).
    rewrite Hst' in Hst. injection Hst as <-.
    destruct (IH st0 ltac:(lia) Hst0) as [Hspace Hbuffer].
    destruct Hit as [(_ & _ & _ & Hr) | (_ & _ & _ & st1 & Hfault & Hr)];
      rewrite (r_space _ _ _ _ _ Hr), (r_buffer _ _ _ _ _ Hr); [done |].
    assert (Hbuffer1 : forall j v, st_buffer st1 !! j = Some v -> -128 <= v < 128).
    { intros j v. rewrite (f_buffer _ _ _ _ Hfault).
      unfold read_page, fread. cbn [fst]. by apply store_bytes_range. }
    split; [| done]. intros j v. rewrite (f_space _ _ _ _ Hfault).
    destruct (decide _); [apply Hbuffer1 | apply Hspace].
Qed.

(** X13. A value that a translation reports is a signed char: it lies
    between -128 and 127. *)
Theorem values_are_signed_chars (store : list byte) (raws : list Z) (k : nat) (raw : Z) :
  Forall valid_address raws -> raws !! k = Some raw ->
  exists st' pa,
    translation store raws k = Some (st', pa) /\
    forall v, value pa = Some v -> -128 <= v < 128.
Proof.
  intros Hvalid Hraw.
  pose proof (lookup_lt_Some _ _ _ Hraw) as Hk.
  destruct (translation_spec store raws k raw Hvalid Hraw)
    as (st & st' & pa & _ & _ & Htr & Hst' & _ & Hit).
  exists st', pa. split; [done |]. intros v.
  destruct (bytes_in_range store raws (S k) st' Hvalid ltac:(lia) Hst') as [Hspace _].
  assert (Hr : exists st0, reported st0 (new_address raw) (frame_number pa) st' pa).
  { destruct Hit as [(_ & _ & _ & Hr) | (_ & _ & _ & st1 & _ & Hr)]; eauto. }
  destruct Hr as [st0 Hr].
  rewrite (r_value _ _ _ _ _ Hr), <- (r_space _ _ _ _ _ Hr). apply Hspace.
Qed.

Lemma values_are_signed_chars_witness :
  exists st' pa,
    translation [x01; x02; x83] [2; 7; 2] 2 = Some (st', pa) /\
    forall v, value pa = Some v -> -128 <= v < 128.
Proof.
  apply (values_are_signed_chars [x01; x02; x83] [2; 7; 2] 2 2).
  - repeat constructor; unfold PAGE_TABLE_SIZE, PAGE_SIZE; lia.
  - reflexivity.
Defined.

(** ** [map_addresses]: the output and the final state *)

Lemma state_after_lines (store : list byte) (raws : list Z) (k : nat) (st : State) :
  Forall valid_address raws -> (k <= length raws)%nat ->
  state_after store raws k = Some st ->
  Forall2 (λ raw line, exists physical v, line = Translation raw physical v)
    (take k raws) (st_output st).
Proof.
  intros Hvalid. revert st. induction k as [| k IH]; intros st Hk Hst.
  - injection Hst as <-. constructor.
  - destruct (lookup_lt_is_Some_2 raws k) as [raw Hraw]; [lia |].
    destruct (translation_spec store raws k raw Hvalid Hraw)
      as (st0 & st' & pa & Hst0 & _ & _ & Hst' & _ & Hit).
    rewrite Hst' in Hst. injection Hst as <-.
    rewrite (iteration_output _ _ _ _ _ Hit), (take_S_r _ _ raw) by done.
    apply Forall2_app; [by apply IH; [lia |] |].
    repeat constructor. by eexists _, _.
Qed.

(** X15. The output of a run is one translation line for each address, in
    the order of the input and carrying the address, followed by the number
    of distinct pages as the number of faults and by the quotient of that
    number by the number of addresses. *)
Theorem run_output_shape (store : list byte) (raws : list Z) :
  Forall valid_address raws ->
  exists st lines,
    run store raws = Some st /\
    st_output st
    = lines
        ++ [PageFaults (Z.of_nat (distinct_pages raws));
            PageFaultRate
              (float_div (float_of_int (Z.of_nat (distinct_pages raws)))
                 (float_of_int (address_count (virtual_memory_of raws))))] /\
    Forall2 (λ raw line, exists physical v, line = Translation raw physical v)
      raws lines.
Proof.
  intros Hvalid.
  destruct (run_defined store raws Hvalid)
    as (st_loop & st & Hloop & Hc & Hrun & _ & _ & Hout).
  exists st, (st_output st_loop). split_and!; [done | |].
  - rewrite Hout, (c_faults _ _ Hc). unfold summary, distinct_pages, address_count.
    cbn [addresses virtual_memory_of]. by rewrite length_fmap.
  - pose proof (state_after_lines store raws (length raws) st_loop Hvalid
                  ltac:(lia) Hloop) as Hlines.
    by rewrite take_ge in Hlines by lia.
Qed.

Lemma run_output_shape_witness :
  exists st lines,
    run [] [1280; 7; 1300] = Some st /\
    st_output st
    = lines
        ++ [PageFaults (Z.of_nat (distinct_pages [1280; 7; 1300]));
            PageFaultRate
              (float_div (float_of_int (Z.of_nat (distinct_pages [1280; 7; 1300])))
                 (float_of_int (address_count (virtual_memory_of [1280; 7; 1300]))))] /\
    Forall2 (λ raw line, exists physical v, line = Translation raw physical v)
      [1280; 7; 1300] lines.
Proof.
  apply (run_output_shape [] [1280; 7; 1300]).
  repeat constructor; unfold PAGE_TABLE_SIZE, PAGE_SIZE; lia.
Defined.

(** X16. At the end of a run [fault_count] is the number of distinct
    pages of the addresses, the frame counter is that number modulo 256,
    [address_count] of the physical memory is the number of addresses, and
    the entries of the page table still unmapped are those of the pages that
    no address refers to. *)
Theorem final_state_of_a_run (store : list byte) (raws : list Z) :
  Forall valid_address raws ->
  exists st,
    run store raws = Some st /\
    fault_count (st_table st) = Z.of_nat (distinct_pages raws) /\
    next_available_frame_index (st_memory st)
    = Z.of_nat (distinct_pages raws) mod UCHAR_MODULUS /\
    pm_address_count (st_memory st) = address_count (virtual_memory_of raws) /\
    length (pt_map (st_table st)) = Z.to_nat PAGE_TABLE_SIZE /\
    (forall p, 0 <= p < PAGE_TABLE_SIZE ->
       array_get (pt_map (st_table st)) p = Some UNMAPPED <-> p ∉ page_of <$> raws).
Proof.
  intros Hvalid.
  destruct (run_defined store raws Hvalid)
    as (st_loop & st & Hloop & Hc & Hrun & Htable & Hmemory & _).
  exists st. rewrite Htable, Hmemory.
  assert (Hfaults : fault_count (st_table st_loop) = Z.of_nat (distinct_pages raws))
    by apply (c_faults _ _ Hc).
  split_and!; try done.
  - by rewrite (c_next _ _ Hc), Hfaults.
  - rewrite (c_count _ _ Hc). unfold address_count, virtual_memory_of.
    cbn [addresses]. by rewrite !length_fmap.
  - apply (c_length _ _ Hc).
  - apply (c_mapped _ _ Hc).
Qed.

Lemma final_state_of_a_run_witness :
  exists st,
    run [] [1280; 7; 1300] = Some st /\
    fault_count (st_table st) = Z.of_nat (distinct_pages [1280; 7; 1300]) /\
    next_available_frame_index (st_memory st)
    = Z.of_nat (distinct_pages [1280; 7; 1300]) mod UCHAR_MODULUS /\
    pm_address_count (st_memory st) = address_count (virtual_memory_of [1280; 7; 1300]) /\
    length (pt_map (st_table st)) = Z.to_nat PAGE_TABLE_SIZE /\
    (forall p, 0 <= p < PAGE_TABLE_SIZE ->
       array_get (pt_map (st_table st)) p = Some UNMAPPED
       <-> p ∉ page_of <$> [1280; 7; 1300]).
Proof.
  apply (final_state_of_a_run [] [1280; 7; 1300]).
  repeat constructor; unfold PAGE_TABLE_SIZE, PAGE_SIZE; lia.
Defined.

(** ** [map_addresses]: the addresses that follow *)

Lemma report_count (count count' : Z) (st : State) (va : VirtualAddress) (f : Z) :
  0 <= f < count -> 0 <= f < count' ->
  report count st va f = report count' st va f.
Proof.
  intros Hf Hf'. unfold report.
  by rewrite (proj2 (in_block_spec count f) Hf), (proj2 (in_block_spec count' f) Hf').
Qed.

Lemma translate_count (count count' : Z) (seen : list Z) (st : State)
    (va : VirtualAddress) :
  consistent seen st -> wf_address va ->
  Z.of_nat (length seen) < count -> Z.of_nat (length seen) < count' ->
  translate count st va = translate count' st va.
Proof.
  intros Hc [Hp Ho] Hcount Hcount'.
  pose proof (c_length _ _ Hc) as Hlen.
  pose proof (consistent_faults_le _ _ Hc) as [Hfc Hfl].
  assert (Hrange : 0 <= page_number va < Z.of_nat (length (pt_map (st_table st))))
    by (rewrite Hlen; unfold PAGE_TABLE_SIZE in *; lia).
  destruct (array_get_in_range _ _ Hrange) as [f Hget].
  destruct (decide (f = UNMAPPED)) as [-> | Hf].
  - pose proof (proj1 (c_mapped _ _ Hc _ Hp) Hget) as Hout.
    pose proof (size_seen_room seen _ (c_seen _ _ Hc) Hp Hout) as Hroom.
    rewrite <- (c_faults _ _ Hc) in Hroom.
    assert (Hnext : next_available_frame_index (st_memory st) = fault_count (st_table st)).
    { rewrite (c_next _ _ Hc). apply Z.mod_small.
      unfold UCHAR_MODULUS, PAGE_TABLE_SIZE in *. lia. }
    destruct (page_fault_spec st (page_number va) Hrange) as (st1 & Hpf & _);
      [rewrite Hnext; lia |].
    rewrite !translate_fault, Hpf, Hnext by done. simpl.
    apply report_count; lia.
  - pose proof (c_frames _ _ Hc _ _ Hget Hf).
    rewrite !(translate_hit _ _ _ f) by done. apply report_count; lia.
Qed.

Lemma map_loop_count (count count' : Z) (vas : list VirtualAddress) (seen : list Z)
    (st : State) :
  consistent seen st -> Forall wf_address vas ->
  Z.of_nat (length seen) + Z.of_nat (length vas) <= count ->
  Z.of_nat (length seen) + Z.of_nat (length vas) <= count' ->
  map_loop count st vas = map_loop count' st vas.
Proof.
  revert seen st. induction vas as [| va rest IH]; intros seen st Hc Hwf Hn Hn'; [done |].
  apply Forall_cons in Hwf as [Hva Hrest]. cbn [length map_loop] in *.
  rewrite <- (translate_count count count' seen st va Hc Hva) by lia.
  destruct (translate_spec count seen st va Hc Hva) as (st1 & pa & Htr & Hc1 & _); [lia |].
  rewrite Htr. simpl. apply (IH _ st1 Hc1 Hrest); rewrite length_app; simpl; lia.
Qed.

(** X17. A translation does not depend on the addresses that follow it:
    the run over a longer input goes, on each of the first addresses, through
    the same states and gives the same record as the run over these
    addresses alone. *)
Theorem later_addresses_change_nothing (store : list byte) (raws more : list Z)
    (k : nat) :
  Forall valid_address (raws ++ more) -> (k < length raws)%nat ->
  translation store (raws ++ more) k = translation store raws k.
Proof.
  intros Hvalid Hk.
  apply Forall_app in Hvalid as [Hraws Hmore].
  assert (Hstate : state_after store (raws ++ more) k = state_after store raws k).
  { unfold state_after. rewrite fmap_app, take_app_le by (rewrite length_fmap; lia).
    apply (map_loop_count _ _ _ [] (boot store) (consistent_boot store)).
    - apply Forall_take, Forall_fmap. eapply Forall_impl; [done |]. apply new_address_wf.
    - rewrite length_take, !length_fmap, length_app. simpl. lia.
    - rewrite length_take, !length_fmap. simpl. lia. }
  unfold translation. rewrite Hstate, (lookup_app_l raws more k) by done.
  destruct (state_after_consistent store raws k Hraws ltac:(lia)) as (st & Hst & Hc).
  rewrite Hst. simpl.
  destruct (raws !! k) as [raw |] eqn:Hraw; [| done]. simpl.
  apply (translate_count _ _ _ st _ Hc).
  - apply new_address_wf. by eapply (Forall_lookup_1 _ raws).
  - rewrite length_fmap, length_take, length_app. lia.
  - rewrite length_fmap, length_take. lia.
Qed.

Lemma later_addresses_change_nothing_witness :
  translation [] ([1280; 7] ++ [1300; 9]) 1 = translation [] [1280; 7] 1.
Proof.
  apply (later_addresses_change_nothing [] [1280; 7] [1300; 9] 1).
  - repeat constructor; unfold PAGE_TABLE_SIZE, PAGE_SIZE; lia.
  - simpl. lia.
Defined.

(** ** The entry point *)


